(** * patch-hub: application state core (src/app.rs, src/app/config.rs)

    Shallow embedding of the state machine of patch-hub: the bounded
    cursors of the browsing screens, the pagination window of the latest
    patchsets, the patchset details sub-state with its action flags, the
    reply-with-reviewed-by workflow, the consolidation of pending actions
    and the layered configuration resolver with its atomic save.

    Conventions.
    - [u32] and [usize] values are [Z]; arithmetic is written out with the
      wrap-around of a release build ([wrap32], [wrap64]).
    - A Rust [unwrap] on [None]/[Err] is the outcome [Panic]; a [bail!] or
      a [?] on an error is [Err].
    - External collaborators (the lore session, git, the file system,
      serde) are fields of a record [Ext] of functions, so every
      environment the code can run in is one value of that record.
    - Observable effects (files persisted, commands run, ...) are recorded
      as a trace of [Event]s, in the order the code performs them. *)

From Stdlib Require Import ZArith Lia Ascii String Sorted.
From stdpp Require Import base gmap list strings.

Open Scope Z_scope.

(** ** Machine integers *)

Definition wrap32 (z : Z) : Z := z mod 2 ^ 32.
Definition wrap64 (z : Z) : Z := z mod 2 ^ 64.

(** [usize::try_into::<u32>()]: fails when the value does not fit. *)
Definition usize_try_into_u32 (z : Z) : option Z :=
  if decide (0 <= z < 2 ^ 32) then Some z else None.

(** [u32::saturating_sub(1)] *)
Definition saturating_sub1 (z : Z) : Z := if decide (z = 0) then 0 else z - 1.

(** ** External data types *)

(** [patch_hub::patch::Patch]: only its identity matters to the core. *)
Record Patch := mkPatch {
  patch_title : string;
  patch_message_id : string;   (* [get_message_id().href] *)
}.

Global Instance Patch_eq_dec : EqDecision Patch.
Proof. solve_decision. Defined.

(** [patch_hub::mailing_list::MailingList] *)
Record MailingList := mkMailingList {
  ml_name : string;
  ml_description : string;
}.

(** ** Outcomes of fallible code *)

Inductive outcome (A : Type) :=
| Ok (a : A)
| Err (e : string)
| Panic.
Arguments Ok {A} a.
Arguments Err {A} e.
Arguments Panic {A}.

(** ** BookmarkedPatchsetsState (app.rs, lines 17-53) *)

Record BookmarkedPatchsetsState := mkBookmarked {
  bookmarked_patchsets : list Patch;
  bps_patchset_index : Z;   (* u32 *)
}.

Module Bookmarked.

Definition select_below_patchset (s : BookmarkedPatchsetsState) : BookmarkedPatchsetsState :=
  if decide (bps_patchset_index s + 1 < Z.of_nat (length (bookmarked_patchsets s)))
  then mkBookmarked (bookmarked_patchsets s) (wrap32 (bps_patchset_index s + 1))
  else s.

Definition select_above_patchset (s : BookmarkedPatchsetsState) : BookmarkedPatchsetsState :=
  mkBookmarked (bookmarked_patchsets s) (saturating_sub1 (bps_patchset_index s)).

(** [.get(index).unwrap().clone()] *)
Definition get_selected_patchset (s : BookmarkedPatchsetsState) : outcome Patch :=
  match bookmarked_patchsets s !! Z.to_nat (bps_patchset_index s) with
  | Some p => Ok p
  | None => Panic
  end.

Definition bookmark_selected_patch (s : BookmarkedPatchsetsState) (p : Patch)
  : BookmarkedPatchsetsState :=
  if decide (p ∈ bookmarked_patchsets s) then s
  else mkBookmarked (bookmarked_patchsets s ++ [p]) (bps_patchset_index s).

(** [Vec::remove] at the first position where the element equals [p]. *)
Fixpoint remove_first (p : Patch) (l : list Patch) : list Patch :=
  match l with
  | [] => []
  | q :: l' => if decide (q = p) then l' else q :: remove_first p l'
  end.

Definition unbookmark_selected_patch (s : BookmarkedPatchsetsState) (p : Patch)
  : BookmarkedPatchsetsState :=
  mkBookmarked (remove_first p (bookmarked_patchsets s)) (bps_patchset_index s).

End Bookmarked.

(** ** LatestPatchsetsState (app.rs, lines 55-147)

    The lore session is represented by what the state reads of it: the
    ordered identifiers of the representative patches processed so far and
    the processed patches by identifier. *)

Record LatestPatchsetsState := mkLatest {
  lps_ids : list string;             (* get_representative_patches_ids() *)
  lps_processed : gmap string Patch; (* get_processed_patch *)
  lps_target_list : string;
  lps_page_number : Z;               (* u32 *)
  lps_patchset_index : Z;            (* u32 *)
  lps_page_size : Z;                 (* u32 *)
}.

(** [lore_api_client::FailedFeedRequest]; the payloads are kept as their
    [Debug] rendering. *)
Inductive FailedFeedRequest :=
| UnknownError (error : string)
| StatusNotOk (feed_response : string)
| EndOfFeed.

Definition newline : string := String (Ascii.ascii_of_nat 10) EmptyString.
Definition tab : string := String (Ascii.ascii_of_nat 9) EmptyString.

Module Latest.

Definition with_cursor (s : LatestPatchsetsState) (page idx : Z) : LatestPatchsetsState :=
  mkLatest (lps_ids s) (lps_processed s) (lps_target_list s) page idx (lps_page_size s).

Definition new (target_list : string) (page_size : Z) : LatestPatchsetsState :=
  mkLatest [] ∅ target_list 1 0 page_size.

Definition select_below_patchset (s : LatestPatchsetsState) : LatestPatchsetsState :=
  if decide (wrap32 (lps_patchset_index s + 1) < wrap32 (Z.of_nat (length (lps_ids s))))
  then with_cursor s (lps_page_number s) (wrap32 (lps_patchset_index s + 1))
  else s.

Definition select_above_patchset (s : LatestPatchsetsState) : LatestPatchsetsState :=
  if decide (lps_patchset_index s = 0) then s
  else if decide (lps_patchset_index s - 1 >=
                  wrap32 (lps_page_size s * wrap32 (lps_page_number s - 1)))
  then with_cursor s (lps_page_number s) (lps_patchset_index s - 1)
  else s.

(** The [try_into().unwrap()] panics when the length does not fit a u32. *)
Definition increment_page (s : LatestPatchsetsState) : outcome LatestPatchsetsState :=
  match usize_try_into_u32 (Z.of_nat (length (lps_ids s))) with
  | None => Panic
  | Some patchsets_processed =>
      if decide (wrap32 (lps_page_size s * lps_page_number s) > patchsets_processed)
      then Ok s
      else
        let page_number := wrap32 (lps_page_number s + 1) in
        Ok (with_cursor s page_number
              (wrap32 (lps_page_size s * wrap32 (page_number - 1))))
  end.

Definition decrement_page (s : LatestPatchsetsState) : LatestPatchsetsState :=
  if decide (lps_page_number s = 1) then s
  else
    let page_number := wrap32 (lps_page_number s - 1) in
    with_cursor s page_number (wrap32 (lps_page_size s * wrap32 (page_number - 1))).

(** [fetch_current_page]. The lore session is passed in and given back
    by [process_n_representative_patches], which receives the number of
    representative patches wanted ([page_size * page_number] on u32) and
    answers [None] for [Ok(())] or the failed request. *)
Definition fetch_current_page
  (process_n_representative_patches :
     list string -> gmap string Patch -> Z ->
     (list string * gmap string Patch) * option FailedFeedRequest)
  (s : LatestPatchsetsState) : LatestPatchsetsState * outcome unit :=
  let '((ids, processed), r) :=
    process_n_representative_patches (lps_ids s) (lps_processed s)
      (wrap32 (lps_page_size s * lps_page_number s)) in
  let s' := mkLatest ids processed (lps_target_list s) (lps_page_number s)
              (lps_patchset_index s) (lps_page_size s) in
  match r with
  | None => (s', Ok tt)
  | Some (UnknownError error) =>
      (s', Err ("[FailedFeedRequest::UnknownError]" +:+ newline +:+ "*" +:+ tab +:+
                "Failed to request feed" +:+ newline +:+ "*" +:+ tab +:+ error)%string)
  | Some (StatusNotOk feed_response) =>
      (s', Err ("[FailedFeedRequest::StatusNotOk]" +:+ newline +:+ "*" +:+ tab +:+
                "Request returned with non-OK status" +:+ newline +:+ "*" +:+ tab +:+
                feed_response)%string)
  | Some EndOfFeed => (s', Ok tt)
  end.

End Latest.

(** ** MailingListSelectionState (app.rs, lines 249-330) *)

Record MailingListSelectionState := mkMLS {
  mailing_lists : list MailingList;
  target_list : string;
  possible_mailing_lists : list MailingList;
  highlighted_list_index : Z;   (* u32 *)
  mls_mailing_lists_path : string;
}.

Module MLS.

(** [list_index <= list_length - 1] on usize: the subtraction wraps when
    the list is empty. *)
Definition has_valid_target_list (s : MailingListSelectionState) : bool :=
  let list_length := Z.of_nat (length (possible_mailing_lists s)) in
  let list_index := highlighted_list_index s in
  bool_decide (list_index <= wrap64 (list_length - 1)).


Definition with_target (s : MailingListSelectionState) (t : string) : MailingListSelectionState :=
  mkMLS (mailing_lists s) t (possible_mailing_lists s) (highlighted_list_index s)
    (mls_mailing_lists_path s).

Definition with_highlight (s : MailingListSelectionState) (i : Z) : MailingListSelectionState :=
  mkMLS (mailing_lists s) (target_list s) (possible_mailing_lists s) i (mls_mailing_lists_path s).

(** [mailing_list.get_name().starts_with(&self.target_list)] *)
Definition matches_target (target : string) (ml : MailingList) : bool :=
  String.prefix target (ml_name ml).

(** The loop pushes, in order, a clone of every mailing list whose name
    starts with the target, then resets the highlight. *)
Definition process_possible_mailing_lists (s : MailingListSelectionState) : MailingListSelectionState :=
  mkMLS (mailing_lists s) (target_list s)
    (List.filter (matches_target (target_list s)) (mailing_lists s)) 0
    (mls_mailing_lists_path s).

(** [String::pop]: drops the last character (characters are [ascii]). *)
Fixpoint string_pop (s : string) : string :=
  match s with
  | EmptyString => EmptyString
  | String _ EmptyString => EmptyString
  | String c rest => String c (string_pop rest)
  end.

Definition remove_last_target_list_char (s : MailingListSelectionState) : MailingListSelectionState :=
  if decide (target_list s = ""%string) then s
  else process_possible_mailing_lists (with_target s (string_pop (target_list s))).

Definition push_char_to_target_list (s : MailingListSelectionState) (ch : ascii)
  : MailingListSelectionState :=
  process_possible_mailing_lists (with_target s (target_list s +:+ String ch EmptyString)).

Definition clear_target_list (s : MailingListSelectionState) : MailingListSelectionState :=
  process_possible_mailing_lists (with_target s "").

Definition highlight_below_list (s : MailingListSelectionState) : MailingListSelectionState :=
  if decide (highlighted_list_index s + 1 < Z.of_nat (length (possible_mailing_lists s)))
  then with_highlight s (wrap32 (highlighted_list_index s + 1))
  else s.

Definition highlight_above_list (s : MailingListSelectionState) : MailingListSelectionState :=
  with_highlight s (saturating_sub1 (highlighted_list_index s)).

(** [refresh_available_mailing_lists]: [fetch_available_lists] answers the
    lists or the failed request ([Debug]-formatted into the [bail!]);
    [save_available_lists] answers [None] on success. The result lists the
    saves performed (lists and path), the state left and the outcome. *)
Definition refresh_available_mailing_lists
  (fetch_available_lists : string + list MailingList)
  (save_available_lists : list MailingList -> string -> option string)
  (s : MailingListSelectionState)
  : list (list MailingList * string) * MailingListSelectionState * outcome unit :=
  match fetch_available_lists with
  | inl failed_available_lists_request => ([], s, Err failed_available_lists_request)
  | inr available_mailing_lists =>
      let s1 := clear_target_list
                  (mkMLS available_mailing_lists (target_list s) (possible_mailing_lists s)
                     (highlighted_list_index s) (mls_mailing_lists_path s)) in
      ([(mailing_lists s1, mls_mailing_lists_path s1)], s1,
       match save_available_lists (mailing_lists s1) (mls_mailing_lists_path s1) with
       | None => Ok tt
       | Some e => Err e
       end)
  end.

End MLS.

(** ** Screens and patchset actions *)

Inductive CurrentScreen :=
| MailingListSelection
| BookmarkedPatchsets
| LatestPatchsets
| PatchsetDetails.

Global Instance CurrentScreen_eq_dec : EqDecision CurrentScreen.
Proof. solve_decision. Defined.

Inductive PatchsetAction := Bookmark | ReplyWithReviewedBy.

Global Instance PatchsetAction_eq_dec : EqDecision PatchsetAction.
Proof. solve_decision. Defined.

Global Instance PatchsetAction_countable : Countable PatchsetAction.
Proof.
  refine (inj_countable'
            (fun a => match a with Bookmark => true | ReplyWithReviewedBy => false end)
            (fun b => if b then Bookmark else ReplyWithReviewedBy) _).
  by intros [].
Defined.

(** ** External collaborators and effects *)

(** One value of [Ext] fixes how every external call of the core answers.
    Persistence functions return [None] on success and [Some e] on an
    I/O error. *)
Record Ext := mkExt {
  save_bookmarked_patchsets : list Patch -> string -> option string;
  save_reviewed_patchsets : gmap string (list Z) -> string -> option string;
  get_git_signature : string * string;
  (* [mktemp --directory] stdout, [None] when the command or the UTF-8
     decoding fails (both [unwrap]ped) *)
  mktemp_directory : option string;
  (* [prepare_reply_patchset_with_reviewed_by tmp_dir target patches sig] *)
  prepare_reply_patchset_with_reviewed_by :
    string -> string -> list string -> string -> string + list string;
  (* spawn and wait one prepared command: [None] when [spawn] or [wait]
     fails, [Some success] otherwise *)
  run_command : string -> option bool;
  download_patchset : string -> Patch -> string + string;
  split_patchset : string -> string + list string;
}.

Inductive Event :=
| EvPrintln (msg : string)
| EvMktemp
| EvPrepareReply (tmp_dir target : string) (patches : list string) (signature : string)
| EvRunCommand (index : Z) (cmd : string)
| EvSaveBookmarked (l : list Patch) (path : string)
| EvSaveReviewed (m : gmap string (list Z)) (path : string)
| EvDownload (cache_dir : string) (p : Patch)
| EvSplit (path : string).

(** ** PatchsetDetailsAndActionsState (app.rs, lines 149-247) *)

Record PatchsetDetailsAndActionsState := mkDetails {
  representative_patch : Patch;
  patches : list string;
  preview_index : Z;           (* u32 *)
  preview_scroll_offset : Z;   (* u32 *)
  patchset_actions : gmap PatchsetAction bool;
  last_screen : CurrentScreen;
}.

(** [HashMap::from([(Bookmark, b), (ReplyWithReviewedBy, false)])] *)
Definition initial_patchset_actions (is_patchset_bookmarked : bool) : gmap PatchsetAction bool :=
  <[ReplyWithReviewedBy := false]> (<[Bookmark := is_patchset_bookmarked]> ∅).

Module Details.

Definition with_actions (d : PatchsetDetailsAndActionsState) (m : gmap PatchsetAction bool) :=
  mkDetails (representative_patch d) (patches d) (preview_index d)
            (preview_scroll_offset d) m (last_screen d).

Definition with_preview (d : PatchsetDetailsAndActionsState) (i off : Z) :=
  mkDetails (representative_patch d) (patches d) i off
            (patchset_actions d) (last_screen d).

Definition preview_next_patch (d : PatchsetDetailsAndActionsState) :=
  if decide (preview_index d + 1 < Z.of_nat (length (patches d)))
  then with_preview d (wrap32 (preview_index d + 1)) 0
  else d.

Definition preview_previous_patch (d : PatchsetDetailsAndActionsState) :=
  if decide (preview_index d > 0)
  then with_preview d (preview_index d - 1) 0
  else d.

(** [self.patches[i].lines().count()]: indexing out of range panics. *)
Definition preview_scroll_down (lines_count : string -> Z) (d : PatchsetDetailsAndActionsState)
  : outcome PatchsetDetailsAndActionsState :=
  match patches d !! Z.to_nat (preview_index d) with
  | None => Panic
  | Some text =>
      if decide (preview_scroll_offset d + 1 <= lines_count text)
      then Ok (with_preview d (preview_index d) (wrap32 (preview_scroll_offset d + 1)))
      else Ok d
  end.

Definition preview_scroll_up (d : PatchsetDetailsAndActionsState) :=
  if decide (preview_scroll_offset d > 0)
  then with_preview d (preview_index d) (preview_scroll_offset d - 1)
  else d.

(** [*map.get(&action).unwrap()] then [insert(action, !current_value)] *)
Definition toggle_action (d : PatchsetDetailsAndActionsState) (a : PatchsetAction)
  : outcome PatchsetDetailsAndActionsState :=
  match patchset_actions d !! a with
  | None => Panic
  | Some current_value => Ok (with_actions d (<[a := negb current_value]> (patchset_actions d)))
  end.

Definition toggle_bookmark_action d := toggle_action d Bookmark.
Definition toggle_reply_with_reviewed_by_action d := toggle_action d ReplyWithReviewedBy.

Definition actions_require_user_io (d : PatchsetDetailsAndActionsState) : outcome bool :=
  match patchset_actions d !! ReplyWithReviewedBy with
  | None => Panic
  | Some b => Ok b
  end.

(** The loop over the prepared commands: spawn each, wait for it, record
    the index of each one that exits successfully. *)
Fixpoint run_reply_commands (x : Ext) (index : Z) (cmds : list string)
  : list Event * outcome (list Z) :=
  match cmds with
  | [] => ([], Ok [])
  | cmd :: rest =>
      match run_command x cmd with
      | None => ([EvRunCommand index cmd], Panic)
      | Some success =>
          let '(tr, r) := run_reply_commands x (index + 1) rest in
          (EvRunCommand index cmd :: tr,
           match r with
           | Ok idxs => Ok (if success then wrap32 index :: idxs else idxs)
           | Err e => Err e
           | Panic => Panic
           end)
      end
  end.

Definition git_not_set_msg : string :=
  "`git config user.name` or `git config user.email` not set" +:+ String (Ascii.ascii_of_nat 10) "Aborting...".

Definition reply_patchset_with_reviewed_by (x : Ext) (d : PatchsetDetailsAndActionsState)
  (target_list : string) : list Event * outcome (list Z) :=
  let '(git_user_name, git_user_email) := get_git_signature x in
  if decide (git_user_name = "" \/ git_user_email = "")%string
  then ([EvPrintln git_not_set_msg], Ok [])
  else
    match mktemp_directory x with
    | None => ([EvMktemp], Panic)
    | Some tmp_dir =>
        let signature := (git_user_name +:+ " <" +:+ git_user_email +:+ ">")%string in
        match prepare_reply_patchset_with_reviewed_by x tmp_dir target_list (patches d) signature with
        | inl e => ([EvMktemp; EvPrepareReply tmp_dir target_list (patches d) signature], Err e)
        | inr git_reply_commands =>
            let '(tr, r) := run_reply_commands x 0 git_reply_commands in
            (EvMktemp :: EvPrepareReply tmp_dir target_list (patches d) signature :: tr, r)
        end
    end.

End Details.

(** ** Config (app/config.rs) *)

Record Config := mkConfig {
  page_size : Z;                 (* usize *)
  patchsets_cache_dir : string;
  bookmarked_patchsets_path : string;
  mailing_lists_path : string;
  reviewed_patchsets_path : string;
  logs_path : string;
  git_send_email_options : string;
  cache_dir : string;
  data_dir : string;
  max_log_age : Z;               (* u64 *)
}.

Global Instance Config_eq_dec : EqDecision Config.
Proof. solve_decision. Defined.

(** What [Config] reads of the process: environment variables, the file
    system ([Path::is_file], [fs::read_to_string]) and serde's parser. *)
Record ConfigEnv := mkConfigEnv {
  env_var : string -> option string;
  is_file : string -> bool;
  read_to_string : string -> option string;
  serde_from_str : string -> option Config;
}.

(** The file system seen by [create_dirs]: each existing path is a
    directory or another kind of file. *)
Inductive FsEntry := FsDir | FsFile.

Module Cfg.

(** The body of [Config::default] once [$HOME] is known. *)
Definition default_from_home (home : string) : Config :=
  let cache_dir := (home +:+ "/.cache/patch_hub")%string in
  let data_dir := (home +:+ "/.local/share/patch_hub")%string in
  mkConfig 30
    (cache_dir +:+ "/patchsets")
    (data_dir +:+ "/bookmarked_patchsets.json")
    (data_dir +:+ "/mailing_lists.json")
    (data_dir +:+ "/reviewed_patchsets.json")
    (data_dir +:+ "/logs")
    "--dry-run --suppress-cc=all"
    cache_dir
    data_dir
    0.

(** [Config::default]: [env::var("HOME").unwrap()] *)
Definition default (ce : ConfigEnv) : outcome Config :=
  match env_var ce "HOME" with
  | None => Panic
  | Some home => Ok (default_from_home home)
  end.

(** Read and parse one candidate file: [is_file], then
    [read_to_string(..).unwrap_or(String::new())], then [serde_json::from_str]. *)
Definition try_config_file (ce : ConfigEnv) (config_path : string) : option Config :=
  if is_file ce config_path then
    let file_contents := from_option id ""%string (read_to_string ce config_path) in
    serde_from_str ce file_contents
  else None.

Definition detect_patch_hub_config_file (ce : ConfigEnv) : outcome (option Config) :=
  match (config_path ← env_var ce "PATCH_HUB_CONFIG_PATH"; try_config_file ce config_path) with
  | Some c => Ok (Some c)
  | None =>
      match env_var ce "HOME" with
      | None => Panic
      | Some home =>
          Ok (try_config_file ce (home +:+ "/.local/share/patch_hub/config.json")%string)
      end
  end.

(** [str::parse::<usize>]: an optional [+], then one or more decimal
    digits, the value below [2^64]. *)
Fixpoint digits_value (acc : Z) (s : string) : option Z :=
  match s with
  | EmptyString => Some acc
  | String c rest =>
      let n := Z.of_nat (Ascii.nat_of_ascii c) in
      if decide (48 <= n <= 57) then digits_value (acc * 10 + (n - 48)) rest else None
  end.

Definition parse_usize (s : string) : option Z :=
  let body := match s with
              | String "+"%char rest => rest
              | _ => s
              end in
  match body with
  | EmptyString => None
  | _ => match digits_value 0 body with
         | Some v => if decide (v < 2 ^ 64) then Some v else None
         | None => None
         end
  end.

Definition set_page_size (c : Config) (n : Z) : Config :=
  mkConfig n (patchsets_cache_dir c) (bookmarked_patchsets_path c) (mailing_lists_path c)
    (reviewed_patchsets_path c) (logs_path c) (git_send_email_options c)
    (cache_dir c) (data_dir c) (max_log_age c).

Definition set_cache_dir (c : Config) (cd : string) : Config :=
  mkConfig (page_size c) (cd +:+ "/patchsets")%string (bookmarked_patchsets_path c)
    (mailing_lists_path c) (reviewed_patchsets_path c) (logs_path c)
    (git_send_email_options c) cd (data_dir c) (max_log_age c).

Definition set_data_dir (c : Config) (dd : string) : Config :=
  mkConfig (page_size c) (patchsets_cache_dir c)
    (dd +:+ "/bookmarked_patchsets.json")%string
    (dd +:+ "/mailing_lists.json")%string
    (dd +:+ "/reviewed_patchsets.json")%string
    (dd +:+ "/logs")%string
    (git_send_email_options c) (cache_dir c) dd (max_log_age c).

Definition set_git_send_email_option (c : Config) (o : string) : Config :=
  mkConfig (page_size c) (patchsets_cache_dir c) (bookmarked_patchsets_path c)
    (mailing_lists_path c) (reviewed_patchsets_path c) (logs_path c) o
    (cache_dir c) (data_dir c) (max_log_age c).

(** [override_with_env_vars]: the page size is [parse().unwrap()]ed. *)
Definition override_with_env_vars (ce : ConfigEnv) (c : Config) : outcome Config :=
  let c1 := match env_var ce "PATCH_HUB_PAGE_SIZE" with
            | None => Ok c
            | Some s => match parse_usize s with
                        | Some n => Ok (set_page_size c n)
                        | None => Panic
                        end
            end in
  match c1 with
  | Ok c1 =>
      let c2 := match env_var ce "PATCH_HUB_CACHE_DIR" with
                | Some cd => set_cache_dir c1 cd | None => c1 end in
      let c3 := match env_var ce "PATCH_HUB_DATA_DIR" with
                | Some dd => set_data_dir c2 dd | None => c2 end in
      let c4 := match env_var ce "PATCH_HUB_GIT_SEND_EMAIL_OPTIONS" with
                | Some o => set_git_send_email_option c3 o | None => c3 end in
      Ok c4
  | Err e => Err e
  | Panic => Panic
  end.

Definition build (ce : ConfigEnv) : outcome Config :=
  match default ce with
  | Ok config =>
      match detect_patch_hub_config_file ce with
      | Ok from_file =>
          override_with_env_vars ce (match from_file with Some c => c | None => config end)
      | Err e => Err e
      | Panic => Panic
      end
  | Err e => Err e
  | Panic => Panic
  end.

(** File-system operations issued by [save_patch_hub_config]. *)
Inductive FsOp :=
| FsCreate (path : string)             (* File::create: create or truncate *)
| FsWrite (path contents : string)     (* one write of the serializer *)
| FsRename (src dst : string).         (* fs::rename *)

Definition apply_op (fs : gmap string string) (op : FsOp) : gmap string string :=
  match op with
  | FsCreate p => <[p := ""%string]> fs
  | FsWrite p s => <[p := (from_option id ""%string (fs !! p) +:+ s)%string]> fs
  | FsRename src dst =>
      match fs !! src with
      | Some c => <[dst := c]> (delete src fs)
      | None => fs
      end
  end.

Definition run_ops (fs : gmap string string) (ops : list FsOp) : gmap string string :=
  foldl apply_op fs ops.

Definition save_path (ce : ConfigEnv) : outcome string :=
  match env_var ce "PATCH_HUB_CONFIG_PATH" with
  | Some path => Ok path
  | None =>
      match env_var ce "HOME" with
      | Some home => Ok (home +:+ "/.local/share/patch_hub/config.json")%string
      | None => Panic
      end
  end.

(** The operations in order when none fails: create the temporary
    file, the writes of [serde_json::to_writer_pretty] (the chunks of the
    serialized config), then the rename. A failing operation ends the
    sequence with [?], so what runs is always a prefix of this list. *)
Definition save_ops (config_path : string) (chunks : list string) : list FsOp :=
  let tmp_filename := (config_path +:+ ".tmp")%string in
  FsCreate tmp_filename :: map (FsWrite tmp_filename) chunks ++ [FsRename tmp_filename config_path].

Definition save_patch_hub_config (ce : ConfigEnv) (to_writer_pretty : Config -> list string)
  (c : Config) : outcome (list FsOp) :=
  match save_path ce with
  | Ok p => Ok (save_ops p (to_writer_pretty c))
  | Err e => Err e
  | Panic => Panic
  end.

(** [create_dirs]: for each of the four directories, in order,
    [fs::metadata(path).is_err()] (nothing exists at the path: [metadata]
    succeeds for any existing entry, a regular file included) leads to
    [fs::create_dir_all(path).unwrap()]. [create_dir_all] answers the file
    system after it, or [None] on an error (the [unwrap] panics). The trace
    lists the paths passed to [create_dir_all]. *)
Fixpoint create_each
  (create_dir_all : gmap string FsEntry -> string -> option (gmap string FsEntry))
  (paths : list string) (fs : gmap string FsEntry)
  : list string * outcome (gmap string FsEntry) :=
  match paths with
  | [] => ([], Ok fs)
  | path :: rest =>
      if decide (is_Some (fs !! path)) then create_each create_dir_all rest fs
      else match create_dir_all fs path with
           | None => ([path], Panic)
           | Some fs' => let '(tr, r) := create_each create_dir_all rest fs' in (path :: tr, r)
           end
  end.

Definition create_dirs
  (create_dir_all : gmap string FsEntry -> string -> option (gmap string FsEntry))
  (c : Config) (fs : gmap string FsEntry) : list string * outcome (gmap string FsEntry) :=
  create_each create_dir_all [cache_dir c; data_dir c; patchsets_cache_dir c; logs_path c] fs.

End Cfg.

(** A [create_dir_all] over the modelled file system: it fails on a regular
    file and otherwise makes the path a directory. *)
Definition mkdir_p (fs : gmap string FsEntry) (p : string) : option (gmap string FsEntry) :=
  match fs !! p with
  | Some FsFile => None
  | _ => Some (<[p := FsDir]> fs)
  end.

(** ** LatestPatchsetsState::get_selected_patchset *)

Definition Latest_get_selected_patchset (s : LatestPatchsetsState) : outcome Patch :=
  match lps_ids s !! Z.to_nat (lps_patchset_index s) with
  | None => Panic
  | Some message_id =>
      match lps_processed s !! message_id with
      | None => Panic
      | Some p => Ok p
      end
  end.

(** ** App (app.rs, lines 340-510) *)

Record App := mkApp {
  current_screen : CurrentScreen;
  mailing_list_selection_state : MailingListSelectionState;
  bookmarked_patchsets_state : BookmarkedPatchsetsState;
  latest_patchsets_state : option LatestPatchsetsState;
  patchset_details_and_actions_state : option PatchsetDetailsAndActionsState;
  reviewed_patchsets : gmap string (list Z);
  config : Config;
}.

Definition set_bookmarked_state (a : App) (b : BookmarkedPatchsetsState) : App :=
  mkApp (current_screen a) (mailing_list_selection_state a) b (latest_patchsets_state a)
    (patchset_details_and_actions_state a) (reviewed_patchsets a) (config a).

Definition set_details_state (a : App) (d : option PatchsetDetailsAndActionsState) : App :=
  mkApp (current_screen a) (mailing_list_selection_state a) (bookmarked_patchsets_state a)
    (latest_patchsets_state a) d (reviewed_patchsets a) (config a).

Definition set_reviewed (a : App) (m : gmap string (list Z)) : App :=
  mkApp (current_screen a) (mailing_list_selection_state a) (bookmarked_patchsets_state a)
    (latest_patchsets_state a) (patchset_details_and_actions_state a) m (config a).

Definition set_latest_state (a : App) (l : option LatestPatchsetsState) : App :=
  mkApp (current_screen a) (mailing_list_selection_state a) (bookmarked_patchsets_state a) l
    (patchset_details_and_actions_state a) (reviewed_patchsets a) (config a).

(** *** A state, trace and error monad for the [&mut self] methods of [App]

    A computation returns the events it performed, the [App] as it is when
    it stops (a [?] or [bail!] leaves earlier mutations in place) and its
    outcome. *)

Definition M (A : Type) := App -> list Event * App * outcome A.

Definition ret {A} (x : A) : M A := fun s => ([], s, Ok x).

Definition bind {A B} (m : M A) (k : A -> M B) : M B := fun s =>
  match m s with
  | (tr1, s1, Ok x) => let '(tr2, s2, r) := k x s1 in (tr1 ++ tr2, s2, r)
  | (tr1, s1, Err e) => (tr1, s1, Err e)
  | (tr1, s1, Panic) => (tr1, s1, Panic)
  end.

Notation "'let!' x := m 'in' k" := (bind m (fun x => k))
  (at level 200, x name, m at level 100, k at level 200).

Definition get : M App := fun s => ([], s, Ok s).
Definition modify (f : App -> App) : M unit := fun s => ([], f s, Ok tt).
Definition emit (ev : Event) : M unit := fun s => ([ev], s, Ok tt).
Definition bail {A} (e : string) : M A := fun s => ([], s, Err e).
Definition panic {A} : M A := fun s => ([], s, Panic).

Definition lift_outcome {A} (r : outcome A) : M A := fun s => ([], s, r).

(** A call that does not touch the [App] but performs effects. *)
Definition lift_traced {A} (c : list Event * outcome A) : M A :=
  fun s => (c.1, s, c.2).

Definition unwrap_details : M PatchsetDetailsAndActionsState := fun s =>
  match patchset_details_and_actions_state s with
  | Some d => ([], s, Ok d)
  | None => ([], s, Panic)
  end.

(** [*patchset_actions.get(&action).unwrap()] *)
Definition get_action (d : PatchsetDetailsAndActionsState) (a : PatchsetAction) : M bool :=
  match patchset_actions d !! a with
  | Some b => ret b
  | None => panic
  end.

(** [lore_session::save_bookmarked_patchsets(..)?] *)
Definition save_bookmarked (x : Ext) (l : list Patch) (path : string) : M unit :=
  let! _ := emit (EvSaveBookmarked l path) in
  match save_bookmarked_patchsets x l path with
  | None => ret tt
  | Some e => bail e
  end.

(** [lore_session::save_reviewed_patchsets(..)?] *)
Definition save_reviewed (x : Ext) (m : gmap string (list Z)) (path : string) : M unit :=
  let! _ := emit (EvSaveReviewed m path) in
  match save_reviewed_patchsets x m path with
  | None => ret tt
  | Some e => bail e
  end.

Module AppM.

Definition set_current_screen (new_current_screen : CurrentScreen) : M unit :=
  modify (fun a => mkApp new_current_screen (mailing_list_selection_state a)
                     (bookmarked_patchsets_state a) (latest_patchsets_state a)
                     (patchset_details_and_actions_state a) (reviewed_patchsets a) (config a)).

Definition reset_patchset_details_and_actions_state : M unit :=
  modify (fun a => set_details_state a None).

Definition consolidate_patchset_actions (x : Ext) : M unit :=
  let! d := unwrap_details in
  let representative_patch := representative_patch d in
  let! should_bookmark_patchset := get_action d Bookmark in
  let! _ := modify (fun a =>
      set_bookmarked_state a
        (if should_bookmark_patchset
         then Bookmarked.bookmark_selected_patch (bookmarked_patchsets_state a) representative_patch
         else Bookmarked.unbookmark_selected_patch (bookmarked_patchsets_state a) representative_patch)) in
  let! a := get in
  let! _ := save_bookmarked x (bookmarked_patchsets (bookmarked_patchsets_state a))
                              (bookmarked_patchsets_path (config a)) in
  let! d := unwrap_details in
  let! should_reply_with_reviewed_by := get_action d ReplyWithReviewedBy in
  if should_reply_with_reviewed_by then
    let! d := unwrap_details in
    let! successful_indexes := lift_traced (Details.reply_patchset_with_reviewed_by x d "all") in
    let! _ :=
      (match successful_indexes with
       | [] => ret tt
       | _ :: _ =>
           let! _ := modify (fun a =>
               set_reviewed a (<[patch_message_id representative_patch := successful_indexes]>
                                 (reviewed_patchsets a))) in
           let! a := get in
           save_reviewed x (reviewed_patchsets a) (reviewed_patchsets_path (config a))
       end) in
    let! d := unwrap_details in
    let! d' := lift_outcome (Details.toggle_action d ReplyWithReviewedBy) in
    modify (fun a => set_details_state a (Some d'))
  else ret tt.

Definition screen_name (s : CurrentScreen) : string :=
  match s with
  | MailingListSelection => "MailingListSelection"
  | BookmarkedPatchsets => "BookmarkedPatchsets"
  | LatestPatchsets => "LatestPatchsets"
  | PatchsetDetails => "PatchsetDetails"
  end.

(** The part of [init_patchset_details_and_actions_state] after the
    representative patch is chosen: download, split, build the sub-state. *)
Definition load_details (x : Ext) (current_screen : CurrentScreen)
  (representative_patch : Patch) (is_patchset_bookmarked : bool) : M unit :=
  let! a := get in
  let! _ := emit (EvDownload (patchsets_cache_dir (config a)) representative_patch) in
  match download_patchset x (patchsets_cache_dir (config a)) representative_patch with
  | inl io_error => bail io_error
  | inr patchset_path =>
      let! _ := emit (EvSplit patchset_path) in
      match split_patchset x patchset_path with
      | inr patches =>
          modify (fun a => set_details_state a (Some (mkDetails representative_patch patches 0 0
                    (initial_patchset_actions is_patchset_bookmarked) current_screen)))
      | inl message => bail message
      end
  end.

Definition init_patchset_details_and_actions_state (x : Ext) (current_screen : CurrentScreen)
  : M unit :=
  match current_screen with
  | BookmarkedPatchsets =>
      let! a := get in
      let! representative_patch :=
        lift_outcome (Bookmarked.get_selected_patchset (bookmarked_patchsets_state a)) in
      load_details x current_screen representative_patch true
  | LatestPatchsets =>
      let! a := get in
      let! lps := lift_outcome (match latest_patchsets_state a with
                                | Some l => Ok l | None => Panic end) in
      let! representative_patch := lift_outcome (Latest_get_selected_patchset lps) in
      load_details x current_screen representative_patch
        (bool_decide (representative_patch ∈ bookmarked_patchsets (bookmarked_patchsets_state a)))
  | screen => bail ("Invalid screen passed as argument " +:+ screen_name screen)%string
  end.

(** [init_latest_patchsets_state]: [possible_mailing_lists[list_index]]
    panics out of range; the configured page size is passed unchanged. *)
Definition init_latest_patchsets_state : M unit :=
  let! a := get in
  let list_index := highlighted_list_index (mailing_list_selection_state a) in
  match possible_mailing_lists (mailing_list_selection_state a) !! Z.to_nat list_index with
  | None => panic
  | Some ml =>
      modify (fun a => set_latest_state a (Some (Latest.new (ml_name ml) (page_size (config a)))))
  end.

Definition reset_latest_patchsets_state : M unit :=
  modify (fun a => set_latest_state a None).

End AppM.

(** ** App::new (app.rs, lines 351-390) *)

(** The three loaders of the lore session, [None] for an [Err]. *)
Record Loaders := mkLoaders {
  load_available_lists : string -> option (list MailingList);
  load_bookmarked_patchsets : string -> option (list Patch);
  load_reviewed_patchsets : string -> option (gmap string (list Z));
}.

Definition App_new (ce : ConfigEnv) (ld : Loaders) : outcome App :=
  match Cfg.build ce with
  | Ok config =>
      let lists := from_option id [] (load_available_lists ld (mailing_lists_path config)) in
      let bookmarked := from_option id [] (load_bookmarked_patchsets ld (bookmarked_patchsets_path config)) in
      let reviewed := from_option id ∅ (load_reviewed_patchsets ld (reviewed_patchsets_path config)) in
      Ok (mkApp MailingListSelection
            (mkMLS lists "" lists 0 (mailing_lists_path config))
            (mkBookmarked bookmarked 0) None None reviewed config)
  | Err e => Err e
  | Panic => Panic
  end.

(** ** Sequences of cursor moves *)

Inductive LatestMove := LSelectBelow | LSelectAbove | LIncrementPage | LDecrementPage.

Definition latest_move (m : LatestMove) (s : LatestPatchsetsState) : outcome LatestPatchsetsState :=
  match m with
  | LSelectBelow => Ok (Latest.select_below_patchset s)
  | LSelectAbove => Ok (Latest.select_above_patchset s)
  | LIncrementPage => Latest.increment_page s
  | LDecrementPage => Ok (Latest.decrement_page s)
  end.

Fixpoint latest_run (ms : list LatestMove) (s : LatestPatchsetsState) : outcome LatestPatchsetsState :=
  match ms with
  | [] => Ok s
  | m :: ms' =>
      match latest_move m s with
      | Ok s' => latest_run ms' s'
      | Err e => Err e
      | Panic => Panic
      end
  end.

Inductive BookmarkedMove := BSelectBelow | BSelectAbove.

Definition bookmarked_move (m : BookmarkedMove) (s : BookmarkedPatchsetsState) :=
  match m with
  | BSelectBelow => Bookmarked.select_below_patchset s
  | BSelectAbove => Bookmarked.select_above_patchset s
  end.

Definition bookmarked_run (ms : list BookmarkedMove) (s : BookmarkedPatchsetsState) :=
  foldl (fun s m => bookmarked_move m s) s ms.

(** ** Steps of the application that may touch the details sub-state *)

Inductive DetailsOp :=
| OpPreviewNext | OpPreviewPrevious | OpScrollDown | OpScrollUp
| OpToggleBookmark | OpToggleReply.

Definition details_op (lines_count : string -> Z) (op : DetailsOp) (d : PatchsetDetailsAndActionsState)
  : outcome PatchsetDetailsAndActionsState :=
  match op with
  | OpPreviewNext => Ok (Details.preview_next_patch d)
  | OpPreviewPrevious => Ok (Details.preview_previous_patch d)
  | OpScrollDown => Details.preview_scroll_down lines_count d
  | OpScrollUp => Ok (Details.preview_scroll_up d)
  | OpToggleBookmark => Details.toggle_bookmark_action d
  | OpToggleReply => Details.toggle_reply_with_reviewed_by_action d
  end.

Inductive app_step (x : Ext) (lines_count : string -> Z) : App -> App -> Prop :=
| step_init screen a :
    app_step x lines_count a (AppM.init_patchset_details_and_actions_state x screen a).1.2
| step_consolidate a :
    app_step x lines_count a (AppM.consolidate_patchset_actions x a).1.2
| step_reset a :
    app_step x lines_count a (AppM.reset_patchset_details_and_actions_state a).1.2
| step_set_screen screen a :
    app_step x lines_count a (AppM.set_current_screen screen a).1.2
| step_details op a d d' :
    patchset_details_and_actions_state a = Some d ->
    details_op lines_count op d = Ok d' ->
    app_step x lines_count a (set_details_state a (Some d')).

Definition actions_complete (d : PatchsetDetailsAndActionsState) : Prop :=
  is_Some (patchset_actions d !! Bookmark) /\ is_Some (patchset_actions d !! ReplyWithReviewedBy).

Definition details_invariant (a : App) : Prop :=
  forall d, patchset_details_and_actions_state a = Some d -> actions_complete d.

Fixpoint details_run (lines_count : string -> Z) (ops : list DetailsOp) (d : PatchsetDetailsAndActionsState)
  : outcome PatchsetDetailsAndActionsState :=
  match ops with
  | [] => Ok d
  | op :: ops' =>
      match details_op lines_count op d with
      | Ok d' => details_run lines_count ops' d'
      | Err e => Err e
      | Panic => Panic
      end
  end.

(** ** Key presses of the mailing-list selection screen *)

Inductive MlsOp := MPush (ch : ascii) | MPop | MClear | MBelow | MAbove.

Definition mls_op (op : MlsOp) (s : MailingListSelectionState) : MailingListSelectionState :=
  match op with
  | MPush ch => MLS.push_char_to_target_list s ch
  | MPop => MLS.remove_last_target_list_char s
  | MClear => MLS.clear_target_list s
  | MBelow => MLS.highlight_below_list s
  | MAbove => MLS.highlight_above_list s
  end.

Definition mls_run (ops : list MlsOp) (s : MailingListSelectionState) : MailingListSelectionState :=
  foldl (fun s op => mls_op op s) s ops.

(** ** Fixtures and auxiliary predicates *)

Definition ext_no_identity : Ext :=
  mkExt (fun _ _ => None) (fun _ _ => None) (""%string, "dev@example.org"%string)
    (Some "/tmp/tmp.1"%string) (fun _ _ _ _ => inr ["git send-email"%string])
    (fun _ => Some true) (fun _ _ => inr "p"%string) (fun _ => inr []).

Definition bookmarked_state (a : App) := bookmarked_patchsets_state a.

Definition app_with_bookmarks (l : list Patch) : App :=
  mkApp BookmarkedPatchsets (mkMLS [] "" [] 0 "") (mkBookmarked l 0) None None ∅
    (Cfg.default_from_home "/home/dev").

Fixpoint env_of (vars : list (string * string)) (k : string) : option string :=
  match vars with
  | [] => None
  | (k', v) :: vars' => if decide (k' = k) then Some v else env_of vars' k
  end.

Definition config_env_page_size_only : ConfigEnv :=
  mkConfigEnv (env_of [("HOME", "/home/dev"); ("PATCH_HUB_PAGE_SIZE", "10")]%string)
    (fun _ => false) (fun _ => None) (fun _ => None).

(** The operations of a save before the rename only touch the temporary
    file. *)
Definition touches_only (q : string) (op : Cfg.FsOp) : Prop :=
  match op with
  | Cfg.FsCreate p => p = q
  | Cfg.FsWrite p _ => p = q
  | Cfg.FsRename _ _ => False
  end.

Definition config_env_default_path : ConfigEnv :=
  mkConfigEnv (env_of [("HOME", "/home/dev")]%string) (fun _ => false) (fun _ => None) (fun _ => None).

Definition bookmark_step (a : App) (d : PatchsetDetailsAndActionsState) (b : bool) :=
  if b then Bookmarked.bookmark_selected_patch (bookmarked_patchsets_state a) (representative_patch d)
  else Bookmarked.unbookmark_selected_patch (bookmarked_patchsets_state a) (representative_patch d).

(** A run of the reply workflow as in the spec's example: three prepared
    commands, the second one fails. *)
Definition ext_three_replies (save_ok : bool) : Ext :=
  mkExt (fun _ _ => if save_ok then None else Some "disk full"%string)
    (fun _ _ => None) ("Dev"%string, "dev@example.org"%string)
    (Some "/tmp/tmp.1"%string)
    (fun _ _ _ _ => inr ["reply 0"; "reply 1"; "reply 2"]%string)
    (fun c => Some (bool_decide (c <> "reply 1"%string)))
    (fun _ _ => inr "/cache/p"%string) (fun _ => inr ["m0"; "m1"; "m2"]%string).

(** Environment in which the command [reply 1] cannot be spawned. *)
Definition ext_spawn_fails : Ext :=
  mkExt (fun _ _ => None) (fun _ _ => None) ("Dev"%string, "dev@example.org"%string)
    (Some "/tmp/tmp.1"%string)
    (fun _ _ _ _ => inr ["reply 0"; "reply 1"; "reply 2"]%string)
    (fun c => if bool_decide (c = "reply 1"%string) then None else Some true)
    (fun _ _ => inr "/cache/p"%string) (fun _ => inr ["m0"; "m1"; "m2"]%string).

Definition details_reply_pending : PatchsetDetailsAndActionsState :=
  mkDetails (mkPatch "[PATCH 0/3] x" "msg-0") ["m0"; "m1"; "m2"]%string 0 0
    (<[ReplyWithReviewedBy := true]> (initial_patchset_actions false)) LatestPatchsets.

Definition app_reply_pending : App :=
  mkApp PatchsetDetails (mkMLS [] "" [] 0 "") (mkBookmarked [] 0) None
    (Some details_reply_pending) ∅ (Cfg.default_from_home "/home/dev").

(** Loaders that find one entry in each of the three collections. *)
Definition loaders_one_each : Loaders :=
  mkLoaders (fun _ => Some [mkMailingList "amd-gfx" "AMD graphics"])
    (fun _ => Some [mkPatch "[PATCH] y" "msg-1"])
    (fun _ => Some {[ "msg-1"%string := [0] ]}).

(** The same application, with indexes already recorded for the series. *)
Definition app_reply_reviewed : App :=
  mkApp PatchsetDetails (mkMLS [] "" [] 0 "") (mkBookmarked [] 0) None
    (Some details_reply_pending) {[ "msg-0"%string := [1] ]} (Cfg.default_from_home "/home/dev").

(** Environment in which every prepared reply command exits unsuccessfully. *)
Definition ext_replies_fail : Ext :=
  mkExt (fun _ _ => None) (fun _ _ => None) ("Dev"%string, "dev@example.org"%string)
    (Some "/tmp/tmp.1"%string)
    (fun _ _ _ _ => inr ["reply 0"; "reply 1"; "reply 2"]%string)
    (fun _ => Some false)
    (fun _ _ => inr "/cache/p"%string) (fun _ => inr ["m0"; "m1"; "m2"]%string).

(** The cursor property of the claim: inside the sequence, or 0 on an
    empty one. *)
Definition cursor_in_bounds (idx len : Z) : Prop :=
  (0 <= idx < len) \/ (len = 0 /\ idx = 0).

Definition bookmarked_cursor_ok (s : BookmarkedPatchsetsState) : Prop :=
  cursor_in_bounds (bps_patchset_index s) (Z.of_nat (length (bookmarked_patchsets s))).

(** What holds of a [LatestPatchsetsState] along the moves: the cursor is
    at most the fetched length; the current page starts within the fetched
    sequence; the numbers stay in the u32 range. *)
Definition latest_inv (s : LatestPatchsetsState) : Prop :=
  let len := Z.of_nat (length (lps_ids s)) in
  let ps := lps_page_size s in
  let pn := lps_page_number s in
  0 <= lps_patchset_index s <= len /\ len + 1 < 2 ^ 32 /\ 0 <= pn < 2 ^ 32 /\
  (ps = 0 \/ (1 <= ps /\ 1 <= pn /\ ps * (pn - 1) <= len /\ len + ps < 2 ^ 32)).

(** The possible mailing lists are the lists whose name starts with the
    target, in the order of [mailing_lists]. *)
Definition mls_consistent (s : MailingListSelectionState) : Prop :=
  possible_mailing_lists s = List.filter (MLS.matches_target (target_list s)) (mailing_lists s).

Definition highlight_ok (s : MailingListSelectionState) : Prop :=
  cursor_in_bounds (highlighted_list_index s) (Z.of_nat (length (possible_mailing_lists s))).

(** The previewed patch exists and the scroll offset is within its line
    count. *)
Definition preview_ok (lines_count : string -> Z) (d : PatchsetDetailsAndActionsState) : Prop :=
  0 <= preview_index d /\ Z.of_nat (length (patches d)) <= 2 ^ 32 /\
  (exists text, patches d !! Z.to_nat (preview_index d) = Some text /\
                0 <= preview_scroll_offset d <= lines_count text).

(** First index of the current page. *)
Definition page_start (s : LatestPatchsetsState) : Z :=
  lps_page_size s * (lps_page_number s - 1).

(** A [ConfigEnv] whose files are those of a file-system map. *)
Definition env_over_fs (ce : ConfigEnv) (fs : gmap string string) : ConfigEnv :=
  mkConfigEnv (env_var ce) (fun p => bool_decide (is_Some (fs !! p))) (fun p => fs !! p)
    (serde_from_str ce).

(** A computation whose final state is related to its initial one by [R]. *)
Definition frame {A} (R : App -> App -> Prop) (m : M A) : Prop :=
  forall s, R s (m s).1.2.

Definition same_bookmarks (a a' : App) : Prop :=
  bookmarked_patchsets_state a' = bookmarked_patchsets_state a.

Definition same_bookmark_cursor (a a' : App) : Prop :=
  bps_patchset_index (bookmarked_patchsets_state a') = bps_patchset_index (bookmarked_patchsets_state a).

Global Instance same_bookmarks_preorder : PreOrder same_bookmarks.
Proof. split; [intros a; reflexivity|intros a b c H1 H2; unfold same_bookmarks in *; congruence]. Qed.

Global Instance same_bookmark_cursor_preorder : PreOrder same_bookmark_cursor.
Proof. split; [intros a; reflexivity|intros a b c H1 H2; unfold same_bookmark_cursor in *; congruence]. Qed.

(** * Properties *)

(** ** Running the monad one statement at a time *)

Section MonadSteps.

Context {A B : Type}.

Lemma bind_unwrap_details (k : PatchsetDetailsAndActionsState -> M B) s d :
  patchset_details_and_actions_state s = Some d -> bind unwrap_details k s = k d s.
Proof.
  intros H. unfold bind, unwrap_details. rewrite H.
  destruct (k d s) as [[??]?]. reflexivity.
Qed.

Lemma bind_run_ok (m : M A) (k : A -> M B) s tr s' v :
  m s = (tr, s', Ok v) -> bind m k s = (tr ++ (k v s').1.1, (k v s').1.2, (k v s').2).
Proof. intros H. unfold bind. rewrite H. destruct (k v s') as [[??]?]. reflexivity. Qed.

Lemma bind_unwrap_details_none (k : PatchsetDetailsAndActionsState -> M B) s :
  patchset_details_and_actions_state s = None -> bind unwrap_details k s = ([], s, Panic).
Proof. intros H. unfold bind, unwrap_details. rewrite H. reflexivity. Qed.

Lemma bind_get_action (k : bool -> M B) s d act b :
  patchset_actions d !! act = Some b -> bind (get_action d act) k s = k b s.
Proof.
  intros H. unfold bind, get_action. rewrite H. unfold ret.
  destruct (k b s) as [[??]?]. reflexivity.
Qed.

Lemma bind_get_action_none (k : bool -> M B) s d act :
  patchset_actions d !! act = None -> bind (get_action d act) k s = ([], s, Panic).
Proof. intros H. unfold bind, get_action. rewrite H. reflexivity. Qed.

Lemma bind_modify (k : unit -> M B) f s : bind (modify f) k s = k tt (f s).
Proof. unfold bind, modify. destruct (k tt (f s)) as [[??]?]. reflexivity. Qed.

Lemma bind_get (k : App -> M B) s : bind get k s = k s s.
Proof. unfold bind, get. destruct (k s s) as [[??]?]. reflexivity. Qed.

Lemma bind_ret (k : A -> M B) (v : A) s : bind (ret v) k s = k v s.
Proof. unfold bind, ret. destruct (k v s) as [[??]?]. reflexivity. Qed.

Lemma bind_lift_ok (k : A -> M B) (v : A) s : bind (lift_outcome (Ok v)) k s = k v s.
Proof. unfold bind, lift_outcome. destruct (k v s) as [[??]?]. reflexivity. Qed.

Lemma bind_lift_traced_ok (k : A -> M B) tr (v : A) s :
  bind (lift_traced (tr, Ok v)) k s = (tr ++ (k v s).1.1, (k v s).1.2, (k v s).2).
Proof. unfold bind, lift_traced. cbn. destruct (k v s) as [[??]?]. reflexivity. Qed.

Lemma bind_save_bookmarked_ok (k : unit -> M B) x l path s :
  save_bookmarked_patchsets x l path = None ->
  bind (save_bookmarked x l path) k s
  = (EvSaveBookmarked l path :: (k tt s).1.1, (k tt s).1.2, (k tt s).2).
Proof.
  intros H. unfold bind, save_bookmarked, emit. rewrite H. unfold ret.
  cbn. destruct (k tt s) as [[??]?]. reflexivity.
Qed.

Lemma bind_save_bookmarked_err (k : unit -> M B) x l path s e :
  save_bookmarked_patchsets x l path = Some e ->
  bind (save_bookmarked x l path) k s = ([EvSaveBookmarked l path], s, Err e).
Proof. intros H. unfold bind, save_bookmarked, emit. rewrite H. reflexivity. Qed.

Lemma bind_save_reviewed_ok (k : unit -> M B) x m path s :
  save_reviewed_patchsets x m path = None ->
  bind (save_reviewed x m path) k s
  = (EvSaveReviewed m path :: (k tt s).1.1, (k tt s).1.2, (k tt s).2).
Proof.
  intros H. unfold bind, save_reviewed, emit. rewrite H. unfold ret.
  cbn. destruct (k tt s) as [[??]?]. reflexivity.
Qed.

Lemma save_reviewed_ok x m path s :
  save_reviewed_patchsets x m path = None ->
  save_reviewed x m path s = ([EvSaveReviewed m path], s, Ok tt).
Proof. intros H. unfold save_reviewed, bind, emit. rewrite H. reflexivity. Qed.

Lemma save_reviewed_err x m path s e :
  save_reviewed_patchsets x m path = Some e ->
  save_reviewed x m path s = ([EvSaveReviewed m path], s, Err e).
Proof. intros H. unfold save_reviewed, bind, emit. rewrite H. reflexivity. Qed.

End MonadSteps.

(** ** C5: the highlighted-index check of the mailing-list selection *)

(** C5 (code_bug). On an empty list of possible matches,
    [has_valid_target_list] computes [0 - 1] on usize, which wraps to
    [usize::MAX], and reports the highlighted index 0 as valid. *)
Lemma C5_empty_possible_lists_reported_valid :
  MLS.has_valid_target_list (mkMLS [mkMailingList "amd-gfx" ""] "linux" [] 0 "") = true.
Proof. reflexivity. Qed.

(** ** C6: reply workflow without a git identity *)

(** C6. When [git config user.name] or [git config user.email] is empty,
    the reply-with-reviewed-by workflow only prints its notice and returns
    [Ok] with no successful index: no temporary directory, no reply
    preparation, no command run. *)
Theorem C6_reply_without_identity_returns_no_index (x : Ext)
  (d : PatchsetDetailsAndActionsState) (target : string) :
  (fst (get_git_signature x) = "" \/ snd (get_git_signature x) = "")%string ->
  Details.reply_patchset_with_reviewed_by x d target = ([EvPrintln Details.git_not_set_msg], Ok []).
Proof.
  intros H. unfold Details.reply_patchset_with_reviewed_by.
  destruct (get_git_signature x) as [name email]; cbn in H.
  rewrite decide_True by exact H. reflexivity.
Qed.

Lemma C6_witness :
  Details.reply_patchset_with_reviewed_by ext_no_identity
    (mkDetails (mkPatch "t" "m") ["a"%string] 0 0 (initial_patchset_actions false) LatestPatchsets)
    "all" = ([EvPrintln Details.git_not_set_msg], Ok []).
Proof. apply C6_reply_without_identity_returns_no_index. left. reflexivity. Defined.

(** ** C10: details from the bookmarked screen *)

(** C10. Entering the details screen from the bookmarked screen reads the
    bookmarked patchset at the cursor with [get(..).unwrap()]: within
    bounds, it is that patchset that is selected (and, when download and
    split succeed, the one the new details sub-state is about, with the
    bookmark flag set); on an empty collection the call panics before any
    effect instead of returning an error. *)
Theorem C10_bookmarked_origin_requires_nonempty (x : Ext) :
  (forall a : App,
     bookmarked_patchsets (bookmarked_state a) = [] ->
     AppM.init_patchset_details_and_actions_state x BookmarkedPatchsets a = ([], a, Panic)) /\
  (forall (a : App) (p : Patch),
     0 <= bps_patchset_index (bookmarked_state a) ->
     bookmarked_patchsets (bookmarked_state a) !! Z.to_nat (bps_patchset_index (bookmarked_state a)) = Some p ->
     Bookmarked.get_selected_patchset (bookmarked_state a) = Ok p /\
     forall tr a',
       AppM.init_patchset_details_and_actions_state x BookmarkedPatchsets a = (tr, a', Ok tt) ->
       exists d, patchset_details_and_actions_state a' = Some d /\
                 representative_patch d = p /\
                 patchset_actions d = initial_patchset_actions true).
Proof.
  unfold bookmarked_state. split.
  - intros a Hempty. unfold AppM.init_patchset_details_and_actions_state, bind, get, lift_outcome.
    unfold Bookmarked.get_selected_patchset. rewrite Hempty. reflexivity.
  - intros a p _ Hp. unfold Bookmarked.get_selected_patchset. rewrite Hp. split; [reflexivity|].
    intros tr a' Hrun.
    unfold AppM.init_patchset_details_and_actions_state, bind, get, lift_outcome in Hrun.
    unfold Bookmarked.get_selected_patchset in Hrun. rewrite Hp in Hrun.
    unfold AppM.load_details, bind, get, emit in Hrun.
    destruct (download_patchset x _ p) as [e|path]; [discriminate|].
    destruct (split_patchset x path) as [e|ps]; [discriminate|].
    unfold modify in Hrun. cbn in Hrun. inversion Hrun; subst.
    eexists; split; [reflexivity|]. split; reflexivity.
Qed.

Lemma C10_witness :
  AppM.init_patchset_details_and_actions_state ext_no_identity BookmarkedPatchsets
    (app_with_bookmarks []) = ([], app_with_bookmarks [], Panic) /\
  Bookmarked.get_selected_patchset (mkBookmarked [mkPatch "t" "m"] 0) = Ok (mkPatch "t" "m").
Proof.
  split.
  - apply (proj1 (C10_bookmarked_origin_requires_nonempty ext_no_identity)). reflexivity.
  - apply (proj2 (C10_bookmarked_origin_requires_nonempty ext_no_identity)
             (app_with_bookmarks [mkPatch "t" "m"]) (mkPatch "t" "m")); cbn; [lia | reflexivity].
Defined.

(** ** C7: configuration with only the page-size override *)

(** C7. With [$HOME] set, no config file at the path named by
    [PATCH_HUB_CONFIG_PATH] (if any) nor at the default location, and
    [PATCH_HUB_PAGE_SIZE=10] the only other override, [Config::build]
    yields the home-derived defaults with the page size replaced by 10. *)
Theorem C7_build_page_size_override_only (ce : ConfigEnv) (home : string) :
  env_var ce "HOME" = Some home ->
  (forall p, env_var ce "PATCH_HUB_CONFIG_PATH" = Some p -> is_file ce p = false) ->
  is_file ce (home +:+ "/.local/share/patch_hub/config.json")%string = false ->
  env_var ce "PATCH_HUB_PAGE_SIZE" = Some "10"%string ->
  env_var ce "PATCH_HUB_CACHE_DIR" = None ->
  env_var ce "PATCH_HUB_DATA_DIR" = None ->
  env_var ce "PATCH_HUB_GIT_SEND_EMAIL_OPTIONS" = None ->
  Cfg.build ce = Ok (Cfg.set_page_size (Cfg.default_from_home home) 10).
Proof.
  intros Hhome Hcp Hdef Hps Hcd Hdd Hgo.
  unfold Cfg.build, Cfg.default, Cfg.detect_patch_hub_config_file.
  rewrite Hhome.
  assert (Hnone : (config_path ← env_var ce "PATCH_HUB_CONFIG_PATH";
                   Cfg.try_config_file ce config_path) = None).
  { destruct (env_var ce "PATCH_HUB_CONFIG_PATH") as [p|] eqn:E; [|reflexivity].
    cbn. unfold Cfg.try_config_file. rewrite (Hcp p eq_refl). reflexivity. }
  rewrite Hnone. unfold Cfg.try_config_file at 1. rewrite Hdef.
  unfold Cfg.override_with_env_vars. rewrite Hps, Hcd, Hdd, Hgo. reflexivity.
Qed.

Lemma C7_witness :
  Cfg.build config_env_page_size_only = Ok (Cfg.set_page_size (Cfg.default_from_home "/home/dev") 10).
Proof.
  apply C7_build_page_size_override_only; try reflexivity.
Defined.

(** ** C8: atomic save of the configuration *)

Lemma run_ops_app fs ops1 ops2 :
  Cfg.run_ops fs (ops1 ++ ops2) = Cfg.run_ops (Cfg.run_ops fs ops1) ops2.
Proof. unfold Cfg.run_ops. apply foldl_app. Qed.

Lemma run_ops_other_path (q path : string) ops fs :
  q <> path -> Forall (touches_only q) ops ->
  Cfg.run_ops fs ops !! path = fs !! path.
Proof.
  intros Hne Hops. revert fs. induction Hops as [|op ops Hop _ IH]; intros fs; [reflexivity|].
  unfold Cfg.run_ops in *. cbn [foldl]. rewrite IH.
  destruct op as [p|p c|src dst]; cbn in Hop |- *; [ | | contradiction ]; subst;
    rewrite lookup_insert_ne by congruence; reflexivity.
Qed.

Lemma run_writes (q : string) chunks fs init :
  fs !! q = Some init ->
  Cfg.run_ops fs (map (Cfg.FsWrite q) chunks) !! q = Some (foldl String.append init chunks).
Proof.
  revert fs init. induction chunks as [|c chunks IH]; intros fs init Hq; [exact Hq|].
  unfold Cfg.run_ops in *. cbn [map foldl]. apply IH.
  cbn. rewrite Hq. apply lookup_insert_eq.
Qed.

Lemma string_length_append (s1 s2 : string) :
  String.length (s1 +:+ s2) = (String.length s1 + String.length s2)%nat.
Proof. induction s1 as [|c s1 IH]; [reflexivity|]. cbn. rewrite <- IH. reflexivity. Qed.

Lemma tmp_path_ne (p : string) : (p +:+ ".tmp")%string <> p.
Proof.
  intros H. apply (f_equal String.length) in H.
  rewrite string_length_append in H. cbn in H. lia.
Qed.

(** C8. [save_patch_hub_config] writes the serialized config to the
    sibling file [<path>.tmp] and then renames it over [<path>]: however
    many of its operations have run before a crash (any strict prefix of
    them, the rename not yet done), the destination holds exactly what it
    held before; once the rename has run it holds the serialized config. *)
Theorem C8_save_is_atomic (ce : ConfigEnv) (to_writer_pretty : Config -> list string)
  (c : Config) (path : string) (fs : gmap string string) :
  Cfg.save_path ce = Ok path ->
  exists ops,
    Cfg.save_patch_hub_config ce to_writer_pretty c = Ok ops /\
    last ops = Some (Cfg.FsRename (path +:+ ".tmp") path) /\
    (forall k, (k < length ops)%nat -> Cfg.run_ops fs (take k ops) !! path = fs !! path) /\
    Cfg.run_ops fs ops !! path = Some (foldl String.append "" (to_writer_pretty c)).
Proof.
  intros Hpath. unfold Cfg.save_patch_hub_config. rewrite Hpath.
  set (tmp := (path +:+ ".tmp")%string).
  assert (Hne : tmp <> path) by apply tmp_path_ne.
  assert (Hpre : Forall (touches_only tmp) (Cfg.FsCreate tmp :: map (Cfg.FsWrite tmp) (to_writer_pretty c))).
  { constructor; [reflexivity|]. apply Forall_forall. intros op Hin.
    apply list_elem_of_fmap in Hin as [ch [-> _]]. reflexivity. }
  eexists. split; [reflexivity|]. unfold Cfg.save_ops. fold tmp.
  rewrite app_comm_cons. split; [|split].
  - apply last_snoc.
  - intros k Hk. rewrite length_app in Hk. cbn [length] in Hk.
    rewrite take_app_le by (cbn [length]; lia).
    apply (run_ops_other_path tmp); [exact Hne|].
    apply Forall_take. exact Hpre.
  - rewrite run_ops_app.
    assert (Htmp : Cfg.run_ops fs (Cfg.FsCreate tmp :: map (Cfg.FsWrite tmp) (to_writer_pretty c)) !! tmp
                   = Some (foldl String.append "" (to_writer_pretty c))).
    { change (Cfg.FsCreate tmp :: map (Cfg.FsWrite tmp) (to_writer_pretty c))
        with ([Cfg.FsCreate tmp] ++ map (Cfg.FsWrite tmp) (to_writer_pretty c)).
      rewrite run_ops_app. apply run_writes. apply lookup_insert_eq. }
    set (r := Cfg.run_ops fs _) in Htmp |- *.
    unfold Cfg.run_ops. cbn [foldl Cfg.apply_op]. rewrite Htmp. apply lookup_insert_eq.
Qed.

Lemma C8_witness :
  exists ops,
    Cfg.save_patch_hub_config config_env_default_path (fun _ => ["{"; "}"]%string)
      (Cfg.default_from_home "/home/dev") = Ok ops /\
    last ops = Some (Cfg.FsRename ("/home/dev/.local/share/patch_hub/config.json" +:+ ".tmp")
                                  "/home/dev/.local/share/patch_hub/config.json") /\
    (forall k, (k < length ops)%nat ->
       Cfg.run_ops {[ "/home/dev/.local/share/patch_hub/config.json" := "old" ]} (take k ops)
         !! "/home/dev/.local/share/patch_hub/config.json"%string
       = Some "old"%string) /\
    Cfg.run_ops {[ "/home/dev/.local/share/patch_hub/config.json" := "old" ]} ops
      !! "/home/dev/.local/share/patch_hub/config.json"%string = Some "{}"%string.
Proof.
  apply C8_save_is_atomic. reflexivity.
Defined.

(** ** C1 and C2: consolidation of the pending actions *)

(** C1. Whatever the details sub-state and the values [b] and [r] of the
    two flags, the first effect of [consolidate_patchset_actions] is the
    persistence of the whole bookmarked collection, after the bookmark flag
    has been applied to it; every effect of the reply step comes after it.
    When that persistence fails, the error is returned, nothing else
    happens, and the collection in memory is the updated one. *)
Theorem C1_bookmark_persisted_before_reply (x : Ext) (a : App)
  (d : PatchsetDetailsAndActionsState) (b r : bool) :
  patchset_details_and_actions_state a = Some d ->
  patchset_actions d !! Bookmark = Some b ->
  patchset_actions d !! ReplyWithReviewedBy = Some r ->
  let bps' := bookmark_step a d b in
  let path := bookmarked_patchsets_path (config a) in
  exists rest,
    (AppM.consolidate_patchset_actions x a).1.1 = EvSaveBookmarked (bookmarked_patchsets bps') path :: rest /\
    (forall e, save_bookmarked_patchsets x (bookmarked_patchsets bps') path = Some e ->
       rest = [] /\ (AppM.consolidate_patchset_actions x a).2 = Err e /\
       bookmarked_patchsets_state (AppM.consolidate_patchset_actions x a).1.2 = bps').
Proof.
  intros Hd Hb Hr bps' path.
  unfold AppM.consolidate_patchset_actions.
  rewrite (bind_unwrap_details _ _ _ Hd), (bind_get_action _ _ _ _ _ Hb), bind_modify, bind_get.
  unfold bookmark_step in bps'. fold bps'. cbn [bookmarked_patchsets_state config set_bookmarked_state]. fold path.
  destruct (save_bookmarked_patchsets x (bookmarked_patchsets bps') path) as [e|] eqn:Hs.
  - rewrite (bind_save_bookmarked_err _ _ _ _ _ _ Hs). exists []. split; [reflexivity|].
    intros e' He'. injection He' as <-. split; [reflexivity|]. split; reflexivity.
  - rewrite (bind_save_bookmarked_ok _ _ _ _ _ Hs).
    eexists. split; [reflexivity|]. intros e He. congruence.
Qed.

Lemma C1_witness :
  exists rest,
    (AppM.consolidate_patchset_actions (ext_three_replies false) app_reply_pending).1.1
      = EvSaveBookmarked [] "/home/dev/.local/share/patch_hub/bookmarked_patchsets.json" :: rest /\
    (forall e, save_bookmarked_patchsets (ext_three_replies false) []
                 "/home/dev/.local/share/patch_hub/bookmarked_patchsets.json" = Some e ->
       rest = [] /\
       (AppM.consolidate_patchset_actions (ext_three_replies false) app_reply_pending).2 = Err e /\
       bookmarked_patchsets_state
         (AppM.consolidate_patchset_actions (ext_three_replies false) app_reply_pending).1.2
       = mkBookmarked [] 0).
Proof.
  apply (C1_bookmark_persisted_before_reply (ext_three_replies false) app_reply_pending
           details_reply_pending false true); reflexivity.
Defined.

(** C2 (amended). With the reply flag set, the bookmark collection persisted and the
    reply workflow answering [Ok successful_indexes], consolidation
    succeeds; when some index succeeded they are stored under the series'
    message identifier (replacing what was there) and the whole map is
    persisted; in every case, also when no index succeeded, the reply flag
    is false afterwards. *)
Theorem C2_reply_indexes_recorded_and_flag_cleared (x : Ext) (a : App)
  (d : PatchsetDetailsAndActionsState) (b : bool)
  (tr : list Event) (successful_indexes : list Z) :
  patchset_details_and_actions_state a = Some d ->
  patchset_actions d !! Bookmark = Some b ->
  patchset_actions d !! ReplyWithReviewedBy = Some true ->
  let bps' := bookmark_step a d b in
  let reviewed' := <[patch_message_id (representative_patch d) := successful_indexes]> (reviewed_patchsets a) in
  save_bookmarked_patchsets x (bookmarked_patchsets bps') (bookmarked_patchsets_path (config a)) = None ->
  Details.reply_patchset_with_reviewed_by x d "all" = (tr, Ok successful_indexes) ->
  save_reviewed_patchsets x reviewed' (reviewed_patchsets_path (config a)) = None ->
  let run := AppM.consolidate_patchset_actions x a in
  run.2 = Ok tt /\
  run.1.1 = EvSaveBookmarked (bookmarked_patchsets bps') (bookmarked_patchsets_path (config a)) :: tr ++
            match successful_indexes with
            | [] => []
            | _ :: _ => [EvSaveReviewed reviewed' (reviewed_patchsets_path (config a))]
            end /\
  reviewed_patchsets run.1.2 = match successful_indexes with
                               | [] => reviewed_patchsets a
                               | _ :: _ => reviewed'
                               end /\
  exists d', patchset_details_and_actions_state run.1.2 = Some d' /\
             patchset_actions d' !! ReplyWithReviewedBy = Some false.
Proof.
  intros Hd Hb Hr bps' reviewed' Hsb Hreply Hsr run. subst run.
  unfold AppM.consolidate_patchset_actions.
  rewrite (bind_unwrap_details _ _ _ Hd), (bind_get_action _ _ _ _ _ Hb), bind_modify, bind_get.
  unfold bookmark_step in bps'. fold bps'. cbn [bookmarked_patchsets_state config set_bookmarked_state].
  rewrite (bind_save_bookmarked_ok _ _ _ _ _ Hsb).
  rewrite (bind_unwrap_details _ (set_bookmarked_state a bps') d Hd).
  rewrite (bind_get_action _ _ _ _ _ Hr). cbv beta iota.
  rewrite (bind_unwrap_details _ (set_bookmarked_state a bps') d Hd).
  rewrite Hreply, bind_lift_traced_ok.
  assert (Htoggle : Details.toggle_action d ReplyWithReviewedBy
                    = Ok (Details.with_actions d (<[ReplyWithReviewedBy := false]> (patchset_actions d)))).
  { unfold Details.toggle_action. rewrite Hr. reflexivity. }
  destruct successful_indexes as [|i rest].
  - rewrite bind_ret, (bind_unwrap_details _ (set_bookmarked_state a bps') d Hd), Htoggle, bind_lift_ok.
    cbn. split; [reflexivity|]. split; [rewrite app_nil_r; reflexivity|]. split; [reflexivity|].
    eexists; split; [reflexivity|]. apply lookup_insert_eq.
  - erewrite bind_run_ok.
    2:{ rewrite bind_modify, bind_get. apply save_reviewed_ok. exact Hsr. }
    erewrite bind_unwrap_details by exact Hd. rewrite Htoggle, bind_lift_ok.
    cbn. split; [reflexivity|]. split; [reflexivity|]. split; [reflexivity|].
    eexists; split; [reflexivity|]. apply lookup_insert_eq.
Qed.

Lemma C2_witness :
  let run := AppM.consolidate_patchset_actions (ext_three_replies true) app_reply_pending in
  run.2 = Ok tt /\
  reviewed_patchsets run.1.2 !! "msg-0"%string = Some [0; 2] /\
  exists d', patchset_details_and_actions_state run.1.2 = Some d' /\
             patchset_actions d' !! ReplyWithReviewedBy = Some false.
Proof.
  destruct (C2_reply_indexes_recorded_and_flag_cleared (ext_three_replies true) app_reply_pending
              details_reply_pending false
              [EvMktemp; EvPrepareReply "/tmp/tmp.1" "all" ["m0"; "m1"; "m2"] "Dev <dev@example.org>";
               EvRunCommand 0 "reply 0"; EvRunCommand 1 "reply 1"; EvRunCommand 2 "reply 2"]%string
              [0; 2]) as (Hok & _ & Hrev & Hflag); try reflexivity.
  cbn zeta. split; [exact Hok|]. split; [|exact Hflag].
  rewrite Hrev. reflexivity.
Defined.

(** C2 (as stated, refuted). The indexes are not merged: with index 1
    already recorded for the series, consolidation answering indexes 0 and 2
    leaves exactly [0; 2] recorded. And the map is not persisted when no
    index succeeded: with every reply command failing, consolidation
    succeeds without any save of the reviewed map, and the flag is cleared. *)
Lemma C2_counterexample :
  let run1 := AppM.consolidate_patchset_actions (ext_three_replies true) app_reply_reviewed in
  let run2 := AppM.consolidate_patchset_actions ext_replies_fail app_reply_pending in
  reviewed_patchsets app_reply_reviewed !! "msg-0"%string = Some [1] /\
  run1.2 = Ok tt /\
  reviewed_patchsets run1.1.2 !! "msg-0"%string = Some [0; 2] /\
  run2.2 = Ok tt /\
  Forall (fun ev => match ev with EvSaveReviewed _ _ => False | _ => True end) run2.1.1 /\
  reviewed_patchsets run2.1.2 = ∅ /\
  exists d', patchset_details_and_actions_state run2.1.2 = Some d' /\
             patchset_actions d' !! ReplyWithReviewedBy = Some false.
Proof.
  cbn zeta. split; [reflexivity|]. split; [reflexivity|]. split; [reflexivity|].
  split; [reflexivity|]. split; [vm_compute; repeat constructor|]. split; [reflexivity|].
  eexists. split; [reflexivity|]. reflexivity.
Qed.

(** ** C3 and C4: pagination and cursor bounds *)

Lemma wrap32_small (z : Z) : 0 <= z < 2 ^ 32 -> wrap32 z = z.
Proof. intros H. unfold wrap32. apply Z.mod_small. exact H. Qed.

Lemma wrap32_range (z : Z) : 0 <= wrap32 z < 2 ^ 32.
Proof. unfold wrap32. apply Z.mod_pos_bound. lia. Qed.

(** C3 (as stated, refuted). With page size 1 on page 1 and one fetched
    patchset, the first item of the next page (index 1) is not fetched,
    yet [increment_page] moves to page 2 with the cursor on index 1. *)
Lemma C3_counterexample :
  let s := mkLatest ["m0"]%string ∅ "all" 1 0 1 in
  lps_ids s !! Z.to_nat (lps_page_size s * lps_page_number s) = None /\
  Latest.increment_page s = Ok (mkLatest ["m0"]%string ∅ "all" 2 1 1).
Proof. split; reflexivity. Qed.

(** C3 (amended). For values in the u32 range, [increment_page] is a no-op
    exactly when the current page is not complete
    ([page_size * page_number > fetched length]); otherwise it moves to
    page [page_number + 1] and puts the cursor on [page_size * page_number],
    the first index of that page, which is at most the fetched length
    (equal to it when the next page is not fetched yet). *)
Theorem C3_increment_page_requires_full_current_page (s : LatestPatchsetsState) :
  0 <= lps_page_size s -> 0 <= lps_page_number s ->
  Z.of_nat (length (lps_ids s)) < 2 ^ 32 ->
  lps_page_size s * lps_page_number s < 2 ^ 32 ->
  lps_page_number s + 1 < 2 ^ 32 ->
  (Z.of_nat (length (lps_ids s)) < lps_page_size s * lps_page_number s ->
   Latest.increment_page s = Ok s) /\
  (lps_page_size s * lps_page_number s <= Z.of_nat (length (lps_ids s)) ->
   Latest.increment_page s
   = Ok (Latest.with_cursor s (lps_page_number s + 1) (lps_page_size s * lps_page_number s)) /\
   lps_page_size s * lps_page_number s <= Z.of_nat (length (lps_ids s))).
Proof.
  intros Hps Hpn Hlen Hmul Hsucc.
  unfold Latest.increment_page, usize_try_into_u32.
  rewrite decide_True by lia.
  rewrite (wrap32_small (lps_page_size s * lps_page_number s)) by lia.
  split.
  - intros Hlt. rewrite decide_True by lia. reflexivity.
  - intros Hle. rewrite decide_False by lia. split; [|exact Hle].
    rewrite (wrap32_small (lps_page_number s + 1)) by lia.
    replace (lps_page_number s + 1 - 1) with (lps_page_number s) by lia.
    rewrite (wrap32_small (lps_page_number s)) by lia.
    rewrite wrap32_small by lia. reflexivity.
Qed.

Lemma C3_witness :
  Latest.increment_page (mkLatest ["m0"; "m1"]%string ∅ "all" 1 0 2)
  = Ok (Latest.with_cursor (mkLatest ["m0"; "m1"]%string ∅ "all" 1 0 2) (1 + 1) (2 * 1)) /\
  2 * 1 <= 2.
Proof.
  apply (proj2 (C3_increment_page_requires_full_current_page
                  (mkLatest ["m0"; "m1"]%string ∅ "all" 1 0 2) ltac:(cbn; lia) ltac:(cbn; lia)
                  ltac:(cbn; lia) ltac:(cbn; lia) ltac:(cbn; lia))).
  cbn. lia.
Defined.

Lemma bookmarked_move_ok m s : bookmarked_cursor_ok s -> bookmarked_cursor_ok (bookmarked_move m s).
Proof.
  unfold bookmarked_cursor_ok, cursor_in_bounds.
  destruct m; cbn.
  - unfold Bookmarked.select_below_patchset.
    destruct (decide _) as [Hlt|Hge]; [|tauto]. cbn.
    pose proof (wrap32_range (bps_patchset_index s + 1)) as Hr.
    unfold wrap32 in *.
    destruct (Z.lt_ge_cases (bps_patchset_index s + 1) (2 ^ 32)) as [Hfit|Hbig].
    + intros Hs. rewrite Z.mod_small by lia. lia.
    + intros Hs. left. lia.
  - unfold saturating_sub1. intros H. destruct (decide _); lia.
Qed.

Lemma latest_move_inv m s s' : latest_inv s -> latest_move m s = Ok s' -> latest_inv s'.
Proof.
  unfold latest_inv. intros (Hidx & Hlen & Hpn & Hpage) Hm.
  destruct m; cbn in Hm.
  - (* select_below_patchset *)
    injection Hm as <-. unfold Latest.select_below_patchset.
    rewrite (wrap32_small (lps_patchset_index s + 1)) by lia.
    rewrite (wrap32_small (Z.of_nat (length (lps_ids s)))) by lia.
    destruct (decide _); cbn; lia.
  - (* select_above_patchset *)
    injection Hm as <-. unfold Latest.select_above_patchset.
    destruct (decide _); [lia|]. destruct (decide _); cbn; lia.
  - (* increment_page *)
    unfold Latest.increment_page, usize_try_into_u32 in Hm.
    rewrite decide_True in Hm by lia.
    destruct Hpage as [Hz | (Hps & Hpn1 & Hstart & Hfit)].
    + rewrite Hz, Z.mul_0_l, (wrap32_small 0) in Hm by lia.
      rewrite decide_False in Hm by lia.
      injection Hm as <-. cbn. rewrite Hz, Z.mul_0_l, (wrap32_small 0) by lia.
      pose proof (wrap32_range (lps_page_number s + 1)). lia.
    + rewrite (wrap32_small (lps_page_size s * lps_page_number s)) in Hm by nia.
      destruct (decide _) as [Hgt|Hle].
      * injection Hm as <-. lia.
      * injection Hm as <-. cbn.
        assert (lps_page_number s <= Z.of_nat (length (lps_ids s))) by nia.
        rewrite (wrap32_small (lps_page_number s + 1)) by lia.
        replace (lps_page_number s + 1 - 1) with (lps_page_number s) by lia.
        rewrite (wrap32_small (lps_page_number s)) by lia.
        rewrite wrap32_small by nia. nia.
  - (* decrement_page *)
    injection Hm as <-. unfold Latest.decrement_page.
    destruct (decide _) as [H1|H1]; [lia|]. cbn.
    destruct Hpage as [Hz | (Hps & Hpn1 & Hstart & Hfit)].
    + rewrite Hz, Z.mul_0_l, (wrap32_small 0) by lia.
      pose proof (wrap32_range (lps_page_number s - 1)). lia.
    + rewrite (wrap32_small (lps_page_number s - 1)) by lia.
      rewrite (wrap32_small (lps_page_number s - 1 - 1)) by lia.
      rewrite wrap32_small by nia. nia.
Qed.

Lemma latest_run_inv ms s s' : latest_inv s -> latest_run ms s = Ok s' -> latest_inv s'.
Proof.
  revert s. induction ms as [|m ms IH]; intros s Hs Hrun; cbn in Hrun.
  - injection Hrun as <-. exact Hs.
  - destruct (latest_move m s) as [s1| |] eqn:Hm; try discriminate.
    exact (IH s1 (latest_move_inv m s s1 Hs Hm) Hrun).
Qed.

(** C4 (as stated, refuted). From a valid state (page size 1, page 1, one
    fetched patchset, cursor 0), one [increment_page] puts the cursor on
    index 1 of a sequence of length 1. *)
Lemma C4_counterexample :
  let s := mkLatest ["m0"]%string ∅ "all" 1 0 1 in
  cursor_in_bounds (lps_patchset_index s) (Z.of_nat (length (lps_ids s))) /\
  exists s', latest_run [LIncrementPage] s = Ok s' /\
             ~ cursor_in_bounds (lps_patchset_index s') (Z.of_nat (length (lps_ids s'))).
Proof.
  intros s. unfold cursor_in_bounds. split; [cbn; lia|].
  eexists. split; [reflexivity|]. vm_compute. intros [H|H]; destruct H; discriminate.
Qed.

(** C4 (amended). The bookmarked cursor stays inside the collection (or
    at 0 when it is empty) under any sequence of [select_below_patchset]
    and [select_above_patchset]. The latest-patchsets cursor, under any
    sequence of the four moves that does not panic, from any state
    satisfying [latest_inv] (which [LatestPatchsetsState::new] does), only
    stays within [0 <= index <= fetched length]: [increment_page] on an
    exactly full current page leaves it one past the last fetched item. *)
Theorem C4_cursor_bounds (tl : string) (ps : Z) :
  (forall ms s, bookmarked_cursor_ok s -> bookmarked_cursor_ok (bookmarked_run ms s)) /\
  (forall ms s s', latest_inv s -> latest_run ms s = Ok s' ->
     0 <= lps_patchset_index s' <= Z.of_nat (length (lps_ids s')) /\ latest_inv s') /\
  (0 <= ps < 2 ^ 32 -> latest_inv (Latest.new tl ps)).
Proof.
  split; [|split].
  - intros ms. unfold bookmarked_run. induction ms as [|m ms IH]; intros s Hs; cbn; [exact Hs|].
    apply IH. apply bookmarked_move_ok. exact Hs.
  - intros ms s s' Hs Hrun. pose proof (latest_run_inv ms s s' Hs Hrun) as Hs'.
    split; [apply Hs'|exact Hs'].
  - intros Hps. unfold latest_inv, Latest.new. cbn.
    split; [lia|]. split; [lia|]. split; [lia|].
    destruct (decide (ps = 0)); [left; lia | right; lia].
Qed.

Lemma C4_witness :
  bookmarked_cursor_ok (bookmarked_run [BSelectBelow; BSelectBelow; BSelectAbove]
                          (mkBookmarked [mkPatch "a" "1"; mkPatch "b" "2"] 0)) /\
  0 <= 2 /\
  (exists s', latest_run [LIncrementPage; LSelectAbove; LDecrementPage]
                (mkLatest ["m0"; "m1"]%string ∅ "all" 1 0 2) = Ok s' /\
              0 <= lps_patchset_index s' <= Z.of_nat (length (lps_ids s'))) /\
  latest_inv (Latest.new "all" 30).
Proof.
  split; [|split; [lia|split]].
  - apply (proj1 (C4_cursor_bounds "all" 30)). unfold bookmarked_cursor_ok, cursor_in_bounds. cbn. lia.
  - exists (mkLatest ["m0"; "m1"]%string ∅ "all" 1 0 2). split; [vm_compute; reflexivity|].
    apply (proj1 (proj1 (proj2 (C4_cursor_bounds "all" 30))
              [LIncrementPage; LSelectAbove; LDecrementPage]
              (mkLatest ["m0"; "m1"]%string ∅ "all" 1 0 2) (mkLatest ["m0"; "m1"]%string ∅ "all" 1 0 2)
              ltac:(unfold latest_inv; cbn; lia) ltac:(vm_compute; reflexivity))).
  - apply (proj2 (proj2 (C4_cursor_bounds "all" 30))). lia.
Defined.

(** ** C9: the action-flag map always has both keys *)

Lemma bind_stop {A B} (m : M A) (k : A -> M B) s tr s' (r : outcome A) :
  m s = (tr, s', r) -> (forall v, r <> Ok v) -> (bind m k s).1.2 = s'.
Proof.
  intros H Hr. unfold bind. rewrite H.
  destruct r as [v|e|]; [exfalso; exact (Hr v eq_refl)|reflexivity|reflexivity].
Qed.

Lemma bind_state_ok {A B} (m : M A) (k : A -> M B) s tr s' v :
  m s = (tr, s', Ok v) -> (bind m k s).1.2 = (k v s').1.2.
Proof. intros H. rewrite (bind_run_ok m k s tr s' v H). reflexivity. Qed.

Lemma actions_complete_initial b d :
  patchset_actions d = initial_patchset_actions b -> actions_complete d.
Proof.
  intros H. unfold actions_complete. rewrite H. unfold initial_patchset_actions.
  split; eexists; [rewrite lookup_insert_ne by discriminate|]; apply lookup_insert_eq.
Qed.

Lemma actions_complete_insert d act v :
  actions_complete d -> actions_complete (Details.with_actions d (<[act := v]> (patchset_actions d))).
Proof.
  intros [HB HR]. unfold actions_complete; cbn.
  split; destruct act; rewrite ?lookup_insert_eq, ?lookup_insert_ne by discriminate; eauto.
Qed.

Lemma toggle_action_complete d act d' :
  actions_complete d -> Details.toggle_action d act = Ok d' -> actions_complete d'.
Proof.
  unfold Details.toggle_action. intros Hc Ht.
  destruct (patchset_actions d !! act); [|discriminate].
  injection Ht as <-. apply actions_complete_insert. exact Hc.
Qed.

Lemma details_op_complete lines_count op d d' :
  actions_complete d -> details_op lines_count op d = Ok d' -> actions_complete d'.
Proof.
  intros Hc Hop. destruct op; cbn in Hop.
  - injection Hop as <-. unfold Details.preview_next_patch. destruct (decide _); exact Hc.
  - injection Hop as <-. unfold Details.preview_previous_patch. destruct (decide _); exact Hc.
  - unfold Details.preview_scroll_down in Hop.
    destruct (patches d !! _); [|discriminate]. destruct (decide _); injection Hop as <-; exact Hc.
  - injection Hop as <-. unfold Details.preview_scroll_up. destruct (decide _); exact Hc.
  - exact (toggle_action_complete d Bookmark d' Hc Hop).
  - exact (toggle_action_complete d ReplyWithReviewedBy d' Hc Hop).
Qed.

Lemma load_details_preserves x screen p b a :
  details_invariant a -> details_invariant (AppM.load_details x screen p b a).1.2.
Proof.
  intros Hinv. unfold AppM.load_details.
  rewrite (bind_state_ok get _ a [] a a) by reflexivity.
  rewrite (bind_state_ok (emit _) _ a _ a tt) by reflexivity.
  destruct (download_patchset x _ p) as [e|path]; [exact Hinv|].
  rewrite (bind_state_ok (emit _) _ a _ a tt) by reflexivity.
  destruct (split_patchset x path) as [e|ps]; [exact Hinv|].
  intros d Hd. cbn in Hd. injection Hd as <-.
  apply (actions_complete_initial b). reflexivity.
Qed.

Lemma init_preserves x screen a :
  details_invariant a ->
  details_invariant (AppM.init_patchset_details_and_actions_state x screen a).1.2.
Proof.
  intros Hinv. unfold AppM.init_patchset_details_and_actions_state.
  destruct screen; try exact Hinv.
  - rewrite (bind_state_ok get _ a [] a a) by reflexivity.
    destruct (Bookmarked.get_selected_patchset (bookmarked_patchsets_state a)) as [p|e|] eqn:Hp.
    + rewrite (bind_state_ok (lift_outcome (Ok p)) _ a [] a p) by reflexivity.
      apply load_details_preserves. exact Hinv.
    + erewrite bind_stop; [exact Hinv|reflexivity|discriminate].
    + erewrite bind_stop; [exact Hinv|reflexivity|discriminate].
  - rewrite (bind_state_ok get _ a [] a a) by reflexivity.
    destruct (latest_patchsets_state a) as [l|].
    + rewrite (bind_state_ok (lift_outcome (Ok l)) _ a [] a l) by reflexivity.
      destruct (Latest_get_selected_patchset l) as [p|e|].
      * rewrite (bind_state_ok (lift_outcome (Ok p)) _ a [] a p) by reflexivity.
        apply load_details_preserves. exact Hinv.
      * erewrite bind_stop; [exact Hinv|reflexivity|discriminate].
      * erewrite bind_stop; [exact Hinv|reflexivity|discriminate].
    + erewrite bind_stop; [exact Hinv|reflexivity|discriminate].
Qed.

Lemma unwrap_details_run s d :
  patchset_details_and_actions_state s = Some d -> unwrap_details s = ([], s, Ok d).
Proof. intros H. unfold unwrap_details. rewrite H. reflexivity. Qed.

Lemma get_action_run d act b s :
  patchset_actions d !! act = Some b -> get_action d act s = ([], s, Ok b).
Proof. intros H. unfold get_action. rewrite H. reflexivity. Qed.

Lemma toggle_then_store_preserves d a :
  patchset_details_and_actions_state a = Some d -> details_invariant a ->
  details_invariant
    (bind (lift_outcome (Details.toggle_action d ReplyWithReviewedBy))
          (fun d' => modify (fun a => set_details_state a (Some d'))) a).1.2.
Proof.
  intros Hd Hinv.
  destruct (Details.toggle_action d ReplyWithReviewedBy) as [d'|e|] eqn:Ht.
  - rewrite (bind_state_ok _ _ a [] a d') by reflexivity.
    intros d0 Hd0. cbn in Hd0. injection Hd0 as <-.
    exact (toggle_action_complete d _ d' (Hinv d Hd) Ht).
  - erewrite bind_stop; [exact Hinv|reflexivity|discriminate].
  - erewrite bind_stop; [exact Hinv|reflexivity|discriminate].
Qed.

Lemma consolidate_preserves x a :
  details_invariant a -> details_invariant (AppM.consolidate_patchset_actions x a).1.2.
Proof.
  intros Hinv. unfold AppM.consolidate_patchset_actions.
  destruct (patchset_details_and_actions_state a) as [d|] eqn:Hd.
  2:{ rewrite (bind_unwrap_details_none _ _ Hd). exact Hinv. }
  destruct (Hinv d Hd) as [[b Hb] [r Hr]].
  rewrite (bind_state_ok _ _ a [] a d (unwrap_details_run a d Hd)).
  rewrite (bind_state_ok _ _ a [] a b (get_action_run d Bookmark b a Hb)).
  rewrite (bind_state_ok (modify _) _ a [] _ tt) by reflexivity.
  set (a1 := set_bookmarked_state a _).
  assert (Hd1 : patchset_details_and_actions_state a1 = Some d) by exact Hd.
  assert (Hinv1 : details_invariant a1) by exact Hinv.
  rewrite (bind_state_ok get _ a1 [] a1 a1) by reflexivity.
  destruct (save_bookmarked_patchsets x (bookmarked_patchsets (bookmarked_patchsets_state a1))
              (bookmarked_patchsets_path (config a1))) eqn:Hs.
  { erewrite bind_stop;
      [exact Hinv1 | unfold save_bookmarked, bind, emit; rewrite Hs; reflexivity | discriminate]. }
  rewrite (bind_state_ok _ _ a1 [EvSaveBookmarked _ _] a1 tt)
    by (unfold save_bookmarked, bind, emit; rewrite Hs; reflexivity).
  rewrite (bind_state_ok _ _ a1 [] a1 d (unwrap_details_run a1 d Hd1)).
  rewrite (bind_state_ok _ _ a1 [] a1 r (get_action_run d ReplyWithReviewedBy r a1 Hr)).
  destruct r; [|exact Hinv1].
  rewrite (bind_state_ok _ _ a1 [] a1 d (unwrap_details_run a1 d Hd1)).
  destruct (Details.reply_patchset_with_reviewed_by x d "all") as [tr [idxs|e|]] eqn:Hrep.
  2,3: erewrite bind_stop; [exact Hinv1|reflexivity|discriminate].
  rewrite (bind_state_ok _ _ a1 tr a1 idxs) by reflexivity.
  destruct idxs as [|i rest].
  - rewrite (bind_state_ok _ _ a1 [] a1 tt) by reflexivity.
    rewrite (bind_state_ok _ _ a1 [] a1 d (unwrap_details_run a1 d Hd1)).
    apply toggle_then_store_preserves; assumption.
  - set (a2 := set_reviewed a1 (<[patch_message_id (representative_patch d) := i :: rest]>
                                   (reviewed_patchsets a1))).
    assert (Hd2 : patchset_details_and_actions_state a2 = Some d) by exact Hd.
    assert (Hinv2 : details_invariant a2) by exact Hinv.
    destruct (save_reviewed_patchsets x (reviewed_patchsets a2) (reviewed_patchsets_path (config a2))) eqn:Hs2.
    + erewrite bind_stop;
        [exact Hinv2
        | rewrite bind_modify, bind_get; apply save_reviewed_err; exact Hs2
        | discriminate].
    + rewrite (bind_state_ok _ _ a1 [EvSaveReviewed (reviewed_patchsets a2) (reviewed_patchsets_path (config a2))] a2 tt)
        by (rewrite bind_modify, bind_get; apply save_reviewed_ok; exact Hs2).
      rewrite (bind_state_ok _ _ a2 [] a2 d (unwrap_details_run a2 d Hd2)).
      apply toggle_then_store_preserves; assumption.
Qed.

Lemma app_step_preserves x lines_count a a' :
  app_step x lines_count a a' -> details_invariant a -> details_invariant a'.
Proof.
  intros Hstep Hinv. destruct Hstep as [screen a|a|a|screen a|op a d d' Hd Hop].
  - apply init_preserves. exact Hinv.
  - apply consolidate_preserves. exact Hinv.
  - intros d Hd. discriminate.
  - exact Hinv.
  - intros d0 Hd0. cbn in Hd0. injection Hd0 as <-.
    exact (details_op_complete lines_count op d d' (Hinv d Hd) Hop).
Qed.

(** C9. From a state with no details sub-state (as [App::new] builds
    it), along any sequence of the application's steps that touch that
    sub-state (entering the details screen from any origin, the preview and
    toggle methods, consolidation, reset, screen changes), every details
    sub-state has a flag for both [Bookmark] and [ReplyWithReviewedBy], so
    the [get(..).unwrap()] of [toggle_action], [actions_require_user_io] and
    [consolidate_patchset_actions] never reaches its panic. *)
Theorem C9_action_flags_always_present (x : Ext) (lines_count : string -> Z) (a0 a : App) :
  patchset_details_and_actions_state a0 = None ->
  rtc (app_step x lines_count) a0 a ->
  forall d, patchset_details_and_actions_state a = Some d ->
    (forall act, is_Some (patchset_actions d !! act)) /\
    (forall act, Details.toggle_action d act <> Panic) /\
    Details.actions_require_user_io d <> Panic /\
    (forall act s, (get_action d act s).2 <> Panic).
Proof.
  intros H0 Hrtc.
  assert (Hinv0 : details_invariant a0) by (intros d Hd; congruence).
  assert (Hinv : details_invariant a).
  { clear H0. induction Hrtc as [a0|a0 a1 a2 Hstep _ IH]; [exact Hinv0|].
    apply IH. exact (app_step_preserves x lines_count a0 a1 Hstep Hinv0). }
  clear - Hinv. intros d Hd.
  destruct (Hinv d Hd) as [[b Hb] [r Hr]].
  assert (Hall : forall act, is_Some (patchset_actions d !! act)).
  { intros []; eexists; eassumption. }
  split; [exact Hall|]. split; [|split].
  - intros act. unfold Details.toggle_action.
    destruct (Hall act) as [v Hv]. rewrite Hv. discriminate.
  - unfold Details.actions_require_user_io. rewrite Hr. discriminate.
  - intros act s. destruct (Hall act) as [v Hv].
    rewrite (get_action_run d act v s Hv). discriminate.
Qed.

Lemma C9_witness :
  let a0 := app_with_bookmarks [mkPatch "t" "m"] in
  let a := (AppM.init_patchset_details_and_actions_state ext_no_identity BookmarkedPatchsets a0).1.2 in
  let d := mkDetails (mkPatch "t" "m") [] 0 0 (initial_patchset_actions true) BookmarkedPatchsets in
  patchset_details_and_actions_state a = Some d /\
  (forall act, is_Some (patchset_actions d !! act)) /\
  (forall act, Details.toggle_action d act <> Panic) /\
  Details.actions_require_user_io d <> Panic /\
  (forall act s, (get_action d act s).2 <> Panic).
Proof.
  intros a0 a d. split; [reflexivity|].
  apply (C9_action_flags_always_present ext_no_identity (fun _ => 0) a0 a); [reflexivity | | reflexivity].
  apply rtc_once. apply step_init.
Defined.

(** ** Mailing-list selection: search box and highlight *)

Lemma prefix_empty_l (n : string) : String.prefix "" n = true.
Proof. destruct n; reflexivity. Qed.

Lemma append_String (c : ascii) (t u : string) : (String c t +:+ u)%string = String c (t +:+ u).
Proof. reflexivity. Qed.

Lemma prefix_app_l (t u n : string) :
  String.prefix (t +:+ u) n = true -> String.prefix t n = true.
Proof.
  revert n. induction t as [|c t IH]; intros n H; [apply prefix_empty_l|].
  rewrite append_String in H.
  destruct n as [|c' n]; cbn in H |- *; [discriminate|].
  destruct (ascii_dec c c'); [apply IH; exact H|discriminate].
Qed.

Lemma filter_true_id {A} (l : list A) : List.filter (fun _ => true) l = l.
Proof. induction l as [|x l IH]; cbn; [reflexivity|]. rewrite IH. reflexivity. Qed.

Lemma filter_matches_empty l : List.filter (MLS.matches_target "") l = l.
Proof.
  induction l as [|ml l IH]; cbn; [reflexivity|].
  unfold MLS.matches_target at 1. rewrite prefix_empty_l, IH. reflexivity.
Qed.

Lemma filter_sublist_mono {A} (f g : A -> bool) (l : list A) :
  (forall x, f x = true -> g x = true) -> sublist (List.filter f l) (List.filter g l).
Proof.
  intros Hfg. induction l as [|x l IH]; cbn; [constructor|].
  destruct (f x) eqn:Hf.
  - rewrite (Hfg x Hf). apply sublist_skip. exact IH.
  - destruct (g x); [apply sublist_cons; exact IH|exact IH].
Qed.

Lemma string_pop_push (t : string) (ch : ascii) :
  MLS.string_pop (t +:+ String ch EmptyString) = t.
Proof.
  induction t as [|c t IH]; [reflexivity|].
  rewrite append_String. change (MLS.string_pop (String c (t +:+ String ch EmptyString)))
    with (match t +:+ String ch EmptyString with
          | EmptyString => EmptyString
          | _ => String c (MLS.string_pop (t +:+ String ch EmptyString)) end).
  destruct t; cbn in *; rewrite ?IH; reflexivity.
Qed.

Lemma process_consistent s : mls_consistent (MLS.process_possible_mailing_lists s).
Proof. reflexivity. Qed.

Lemma process_highlight_ok s : highlight_ok (MLS.process_possible_mailing_lists s).
Proof.
  unfold highlight_ok, cursor_in_bounds. cbn.
  destruct (List.filter _ _); cbn; [right; lia|left; lia].
Qed.

(** X1. Typing one more character into the search box keeps the possible
    lists those whose name starts with the extended target, resets the
    highlight, and only ever narrows the possible lists: the new ones are
    a sublist of the previous ones. *)
Theorem mls_push_char_narrows (s : MailingListSelectionState) (ch : ascii) :
  mls_consistent s ->
  let s' := MLS.push_char_to_target_list s ch in
  target_list s' = (target_list s +:+ String ch EmptyString)%string /\
  mailing_lists s' = mailing_lists s /\
  mls_consistent s' /\ highlighted_list_index s' = 0 /\
  sublist (possible_mailing_lists s') (possible_mailing_lists s).
Proof.
  intros Hc s'. split; [reflexivity|]. split; [reflexivity|].
  split; [apply process_consistent|]. split; [reflexivity|].
  unfold s', MLS.push_char_to_target_list, MLS.process_possible_mailing_lists. cbn.
  rewrite Hc. apply filter_sublist_mono. intros ml. unfold MLS.matches_target. apply prefix_app_l.
Qed.

Lemma mls_push_char_narrows_witness :
  let s := mkMLS [mkMailingList "amd-gfx" ""; mkMailingList "linux-usb" ""] "l"
                 [mkMailingList "linux-usb" ""] 0 "/d/mailing_lists.json" in
  target_list (MLS.push_char_to_target_list s "i"%char) = "li"%string /\
  mailing_lists (MLS.push_char_to_target_list s "i"%char) = mailing_lists s /\
  mls_consistent (MLS.push_char_to_target_list s "i"%char) /\
  highlighted_list_index (MLS.push_char_to_target_list s "i"%char) = 0 /\
  sublist (possible_mailing_lists (MLS.push_char_to_target_list s "i"%char)) (possible_mailing_lists s).
Proof. apply mls_push_char_narrows. reflexivity. Defined.

(** X2. Typing a character and erasing it with backspace gives back the
    previous target and the previous possible lists, with the highlight
    reset to the first one. *)
Theorem mls_push_then_pop (s : MailingListSelectionState) (ch : ascii) :
  mls_consistent s ->
  MLS.remove_last_target_list_char (MLS.push_char_to_target_list s ch) = MLS.with_highlight s 0.
Proof.
  intros Hc. unfold MLS.remove_last_target_list_char.
  rewrite decide_False.
  2:{ cbn. destruct (target_list s); discriminate. }
  unfold MLS.push_char_to_target_list, MLS.process_possible_mailing_lists, MLS.with_target,
    MLS.with_highlight. cbn. rewrite string_pop_push, Hc. reflexivity.
Qed.

Lemma mls_push_then_pop_witness :
  let s := mkMLS [mkMailingList "amd-gfx" ""; mkMailingList "linux-usb" ""] ""
                 [mkMailingList "amd-gfx" ""; mkMailingList "linux-usb" ""] 1 "/d/mailing_lists.json" in
  MLS.remove_last_target_list_char (MLS.push_char_to_target_list s "l"%char) = MLS.with_highlight s 0.
Proof. apply mls_push_then_pop. reflexivity. Defined.

(** X3. Backspace on an empty search box changes nothing (the highlight is
    not reset either); clearing the search box makes every known list a
    possible one and highlights the first. *)
Theorem mls_pop_empty_and_clear (s : MailingListSelectionState) :
  (target_list s = ""%string -> MLS.remove_last_target_list_char s = s) /\
  let s' := MLS.clear_target_list s in
  target_list s' = ""%string /\ possible_mailing_lists s' = mailing_lists s /\
  mailing_lists s' = mailing_lists s /\ highlighted_list_index s' = 0.
Proof.
  split.
  - intros H. unfold MLS.remove_last_target_list_char. rewrite decide_True by exact H. reflexivity.
  - cbn. split; [reflexivity|]. split; [apply filter_matches_empty|]. split; reflexivity.
Qed.

Lemma mls_pop_empty_and_clear_witness :
  MLS.remove_last_target_list_char (mkMLS [mkMailingList "amd-gfx" ""] "" [] 5 "p")
  = mkMLS [mkMailingList "amd-gfx" ""] "" [] 5 "p".
Proof. apply (proj1 (mls_pop_empty_and_clear (mkMLS [mkMailingList "amd-gfx" ""] "" [] 5 "p"))). reflexivity. Defined.

Lemma mls_op_ok op s :
  mls_consistent s -> highlight_ok s -> mls_consistent (mls_op op s) /\ highlight_ok (mls_op op s).
Proof.
  intros Hc Hh. destruct op as [ch| | | |]; cbn.
  - split; [apply process_consistent|apply process_highlight_ok].
  - unfold MLS.remove_last_target_list_char. destruct (decide _); [split; assumption|].
    split; [apply process_consistent|apply process_highlight_ok].
  - split; [apply process_consistent|apply process_highlight_ok].
  - unfold MLS.highlight_below_list. destruct (decide _) as [Hlt|]; [|split; assumption].
    split; [exact Hc|]. unfold highlight_ok, cursor_in_bounds in *. cbn.
    pose proof (wrap32_range (highlighted_list_index s + 1)).
    destruct (Z.lt_ge_cases (highlighted_list_index s + 1) (2 ^ 32)).
    + rewrite wrap32_small by lia. lia.
    + left. lia.
  - split; [exact Hc|]. unfold highlight_ok, cursor_in_bounds in *. cbn.
    unfold saturating_sub1. destruct (decide _); lia.
Qed.

Lemma mls_run_ok ops s :
  mls_consistent s -> highlight_ok s -> mls_consistent (mls_run ops s) /\ highlight_ok (mls_run ops s).
Proof.
  revert s. induction ops as [|op ops IH]; intros s Hc Hh; [split; assumption|].
  change (mls_run (op :: ops) s) with (mls_run ops (mls_op op s)).
  destruct (mls_op_ok op s Hc Hh). apply IH; assumption.
Qed.

Lemma mls_run_lists ops s : mailing_lists (mls_run ops s) = mailing_lists s.
Proof.
  revert s. induction ops as [|op ops IH]; intros s; [reflexivity|].
  change (mls_run (op :: ops) s) with (mls_run ops (mls_op op s)). rewrite IH.
  destruct op; cbn; try reflexivity.
  - unfold MLS.remove_last_target_list_char. destruct (decide _); reflexivity.
  - unfold MLS.highlight_below_list. destruct (decide _); reflexivity.
Qed.

Lemma filter_length_le {A} (f : A -> bool) l : (length (List.filter f l) <= length l)%nat.
Proof. induction l as [|x l IH]; cbn; [lia|]. destruct (f x); cbn; lia. Qed.

(** X4. Along any sequence of key presses of the selection screen (typing,
    backspace, clearing, moving the highlight), the possible lists stay
    those whose name starts with the target and the highlight stays on one
    of them (or at 0 when there is none). [has_valid_target_list] answers,
    on a non-empty list of possible lists, whether the highlight is inside
    it, so in every such state it answers [true]; it also answers [true]
    when there is no possible list. *)
Theorem mls_highlight_stays_valid (ops : list MlsOp) (s : MailingListSelectionState) :
  mls_consistent s -> highlight_ok s -> Z.of_nat (length (mailing_lists s)) <= 2 ^ 64 ->
  let s' := mls_run ops s in
  mls_consistent s' /\ highlight_ok s' /\
  (possible_mailing_lists s' <> [] ->
   MLS.has_valid_target_list s'
   = bool_decide (highlighted_list_index s' < Z.of_nat (length (possible_mailing_lists s')))) /\
  MLS.has_valid_target_list s' = true.
Proof.
  intros Hc Hh Hlen s'.
  destruct (mls_run_ok ops s Hc Hh) as [Hc' Hh']. fold s' in Hc', Hh'.
  assert (Hl : Z.of_nat (length (possible_mailing_lists s')) <= 2 ^ 64).
  { rewrite Hc'. pose proof (filter_length_le (MLS.matches_target (target_list s')) (mailing_lists s')).
    assert (Hm : mailing_lists s' = mailing_lists s) by apply mls_run_lists.
    rewrite Hm in *. lia. }
  split; [exact Hc'|]. split; [exact Hh'|].
  unfold MLS.has_valid_target_list, wrap64.
  unfold highlight_ok, cursor_in_bounds in Hh'.
  destruct (possible_mailing_lists s') as [|ml rest] eqn:Hp.
  - split; [congruence|]. cbn [length Z.of_nat].
    destruct Hh' as [Hh'|[_ ->]]; [cbn in Hh'; lia|].
    apply bool_decide_eq_true.
    match goal with |- context [?z mod 2 ^ 64] => pose proof (Z.mod_pos_bound z (2 ^ 64)) end. lia.
  - rewrite Z.mod_small by (cbn [length] in *; lia).
    split.
    + intros _. apply bool_decide_ext. lia.
    + apply bool_decide_eq_true. cbn [length] in *. lia.
Qed.

Lemma mls_highlight_stays_valid_witness :
  let s := mkMLS [mkMailingList "amd-gfx" ""; mkMailingList "linux-usb" ""] ""
                 [mkMailingList "amd-gfx" ""; mkMailingList "linux-usb" ""] 0 "p" in
  let s' := mls_run [MPush "l"%char; MBelow; MBelow; MPop; MBelow; MAbove; MClear; MPush "x"%char] s in
  mls_consistent s' /\ highlight_ok s' /\
  (possible_mailing_lists s' <> [] ->
   MLS.has_valid_target_list s'
   = bool_decide (highlighted_list_index s' < Z.of_nat (length (possible_mailing_lists s')))) /\
  MLS.has_valid_target_list s' = true.
Proof.
  apply mls_highlight_stays_valid;
    [reflexivity | unfold highlight_ok, cursor_in_bounds; cbn; lia | cbn; lia].
Defined.

(** ** Opening the latest patchsets of the highlighted list *)

Lemma latest_new_inv tl ps : 0 <= ps < 2 ^ 32 -> latest_inv (Latest.new tl ps).
Proof.
  intros Hps. unfold latest_inv, Latest.new. cbn.
  split; [lia|]. split; [lia|]. split; [lia|].
  destruct (decide (ps = 0)); [left; lia | right; lia].
Qed.

(** X5. With the highlight inside a non-empty list of possible lists,
    [init_latest_patchsets_state] opens the highlighted list on page 1
    with the cursor at 0 and nothing fetched, a state from which the
    cursor bounds of the latest screen hold. With no possible list it
    panics on the indexing, although [has_valid_target_list] answers
    [true] for that state. *)
Theorem init_latest_selects_highlighted (a : App) :
  let s := mailing_list_selection_state a in
  highlight_ok s ->
  (possible_mailing_lists s <> [] ->
   exists ml,
     possible_mailing_lists s !! Z.to_nat (highlighted_list_index s) = Some ml /\
     AppM.init_latest_patchsets_state a
     = ([], set_latest_state a (Some (Latest.new (ml_name ml) (page_size (config a)))), Ok tt) /\
     (0 <= page_size (config a) < 2 ^ 32 ->
      latest_inv (Latest.new (ml_name ml) (page_size (config a))))) /\
  (possible_mailing_lists s = [] ->
   MLS.has_valid_target_list s = true /\ AppM.init_latest_patchsets_state a = ([], a, Panic)).
Proof.
  intros s Hh. subst s. unfold highlight_ok, cursor_in_bounds in Hh. split.
  - intros Hne.
    destruct (possible_mailing_lists (mailing_list_selection_state a)) as [|ml0 rest] eqn:Hp; [congruence|].
    destruct Hh as [Hh|[Hl _]]; [|cbn in Hl; lia].
    destruct (lookup_lt_is_Some_2 (ml0 :: rest) (Z.to_nat (highlighted_list_index (mailing_list_selection_state a))))
      as [ml Hml]; [cbn [length] in *; lia|].
    exists ml. split; [exact Hml|]. split.
    + unfold AppM.init_latest_patchsets_state, bind, get. rewrite Hp, Hml. reflexivity.
    + apply latest_new_inv.
  - intros Hnil. rewrite Hnil in Hh. cbn in Hh.
    split.
    + unfold MLS.has_valid_target_list. rewrite Hnil. apply bool_decide_eq_true.
      match goal with |- context [wrap64 ?z] => pose proof (Z.mod_pos_bound z (2 ^ 64)) end.
      unfold wrap64. lia.
    + unfold AppM.init_latest_patchsets_state, bind, get. rewrite Hnil.
      rewrite lookup_nil. reflexivity.
Qed.

Lemma init_latest_selects_highlighted_witness :
  let a := mkApp MailingListSelection
             (mkMLS [mkMailingList "amd-gfx" ""] "" [mkMailingList "amd-gfx" ""] 0 "")
             (mkBookmarked [] 0) None None ∅ (Cfg.default_from_home "/home/dev") in
  let s := mailing_list_selection_state a in
  highlight_ok s /\
  (possible_mailing_lists s <> [] ->
   exists ml,
     possible_mailing_lists s !! Z.to_nat (highlighted_list_index s) = Some ml /\
     AppM.init_latest_patchsets_state a
     = ([], set_latest_state a (Some (Latest.new (ml_name ml) (page_size (config a)))), Ok tt) /\
     (0 <= page_size (config a) < 2 ^ 32 ->
      latest_inv (Latest.new (ml_name ml) (page_size (config a))))) /\
  (possible_mailing_lists s = [] ->
   MLS.has_valid_target_list s = true /\ AppM.init_latest_patchsets_state a = ([], a, Panic)).
Proof.
  intros a s.
  assert (Hh : highlight_ok s) by (unfold highlight_ok, cursor_in_bounds; cbn; lia).
  split; [exact Hh|]. apply init_latest_selects_highlighted. exact Hh.
Defined.

(** ** Refreshing the known mailing lists *)

(** X6. When the lists cannot be fetched, [refresh_available_mailing_lists]
    returns the error and changes nothing, saving nothing. When they are
    fetched, they replace the known lists, the search box is cleared (every
    list becomes a possible one, the first highlighted), and only then is
    the new list saved to the state's path; a failing save is returned as
    the error but the state keeps the new lists. *)
Theorem refresh_replaces_lists_then_saves fetch save (s : MailingListSelectionState) :
  (forall e, fetch = inl e -> MLS.refresh_available_mailing_lists fetch save s = ([], s, Err e)) /\
  (forall ls, fetch = inr ls ->
     let run := MLS.refresh_available_mailing_lists fetch save s in
     run.1.2 = mkMLS ls "" ls 0 (mls_mailing_lists_path s) /\
     mls_consistent run.1.2 /\ highlight_ok run.1.2 /\
     run.1.1 = [(ls, mls_mailing_lists_path s)] /\
     run.2 = match save ls (mls_mailing_lists_path s) with None => Ok tt | Some e => Err e end).
Proof.
  split.
  - intros e ->. reflexivity.
  - intros ls -> run. subst run.
    unfold MLS.refresh_available_mailing_lists, MLS.clear_target_list,
      MLS.process_possible_mailing_lists, MLS.with_target.
    cbn [fst snd mailing_lists target_list possible_mailing_lists highlighted_list_index
         mls_mailing_lists_path].
    rewrite filter_matches_empty.
    split; [reflexivity|]. split; [unfold mls_consistent; cbn; rewrite filter_matches_empty; reflexivity|].
    split; [|split; reflexivity].
    unfold highlight_ok, cursor_in_bounds. cbn. destruct ls; cbn; lia.
Qed.

Lemma refresh_replaces_lists_then_saves_witness :
  let ls := [mkMailingList "amd-gfx" ""; mkMailingList "linux-usb" ""] in
  let s := mkMLS [] "li" [] 0 "/d/mailing_lists.json" in
  let run := MLS.refresh_available_mailing_lists (inr ls) (fun _ _ => Some "read-only"%string) s in
  run.1.2 = mkMLS ls "" ls 0 "/d/mailing_lists.json" /\
  mls_consistent run.1.2 /\ highlight_ok run.1.2 /\
  run.1.1 = [(ls, "/d/mailing_lists.json"%string)] /\
  run.2 = Err "read-only"%string.
Proof.
  intros ls s run.
  apply (proj2 (refresh_replaces_lists_then_saves (inr ls) (fun _ _ => Some "read-only"%string) s) ls eq_refl).
Defined.

(** ** Start-up state *)

(** X7. [App::new] panics when [Config::build] does; otherwise it starts on
    the mailing-list selection screen with an empty search box, every
    known list a possible one and the first (index 0) highlighted, no
    latest or details sub-state, the bookmark cursor at 0, and the built
    config. The known lists, the bookmarked patchsets and the reviewed
    indexes are what their loaders read from the paths of the config; a
    collection whose file cannot be loaded starts empty. *)
Theorem app_new_initial_state (ce : ConfigEnv) (ld : Loaders) :
  (Cfg.build ce = Panic -> App_new ce ld = Panic) /\
  (forall c, Cfg.build ce = Ok c ->
   exists a, App_new ce ld = Ok a /\
     config a = c /\ current_screen a = MailingListSelection /\
     target_list (mailing_list_selection_state a) = ""%string /\
     possible_mailing_lists (mailing_list_selection_state a) = mailing_lists (mailing_list_selection_state a) /\
     mls_consistent (mailing_list_selection_state a) /\ highlight_ok (mailing_list_selection_state a) /\
     mls_mailing_lists_path (mailing_list_selection_state a) = mailing_lists_path c /\
     latest_patchsets_state a = None /\ patchset_details_and_actions_state a = None /\
     bps_patchset_index (bookmarked_patchsets_state a) = 0 /\
     highlighted_list_index (mailing_list_selection_state a) = 0 /\
     (forall ls, load_available_lists ld (mailing_lists_path c) = Some ls ->
        mailing_lists (mailing_list_selection_state a) = ls) /\
     (load_available_lists ld (mailing_lists_path c) = None ->
        mailing_lists (mailing_list_selection_state a) = []) /\
     (forall l, load_bookmarked_patchsets ld (bookmarked_patchsets_path c) = Some l ->
        bookmarked_patchsets (bookmarked_patchsets_state a) = l) /\
     (load_bookmarked_patchsets ld (bookmarked_patchsets_path c) = None ->
        bookmarked_patchsets (bookmarked_patchsets_state a) = []) /\
     (forall m, load_reviewed_patchsets ld (reviewed_patchsets_path c) = Some m -> reviewed_patchsets a = m) /\
     (load_reviewed_patchsets ld (reviewed_patchsets_path c) = None -> reviewed_patchsets a = ∅)).
Proof.
  unfold App_new. split.
  - intros ->. reflexivity.
  - intros c ->. eexists. split; [reflexivity|]. cbn [config current_screen mailing_list_selection_state
      target_list possible_mailing_lists mailing_lists mls_mailing_lists_path latest_patchsets_state
      patchset_details_and_actions_state bookmarked_patchsets_state bps_patchset_index bookmarked_patchsets
      reviewed_patchsets highlighted_list_index].
    do 4 (split; [reflexivity|]).
    split; [unfold mls_consistent; cbn; symmetry; apply filter_matches_empty|].
    split; [unfold highlight_ok, cursor_in_bounds; cbn; destruct (from_option _ _ _); cbn; lia|].
    do 5 (split; [reflexivity|]).
    split; [intros ls ->; reflexivity|]. split; [intros ->; reflexivity|].
    split; [intros l ->; reflexivity|]. split; [intros ->; reflexivity|].
    split; [intros m ->; reflexivity|]. intros ->; reflexivity.
Qed.

Lemma app_new_initial_state_witness :
  exists a, App_new config_env_page_size_only loaders_one_each = Ok a /\
     config a = Cfg.set_page_size (Cfg.default_from_home "/home/dev") 10 /\
     highlighted_list_index (mailing_list_selection_state a) = 0 /\
     mailing_lists (mailing_list_selection_state a) = [mkMailingList "amd-gfx" "AMD graphics"] /\
     bookmarked_patchsets (bookmarked_patchsets_state a) = [mkPatch "[PATCH] y" "msg-1"] /\
     reviewed_patchsets a = {[ "msg-1"%string := [0] ]}.
Proof.
  destruct (proj2 (app_new_initial_state config_env_page_size_only loaders_one_each) _ eq_refl)
    as (a & Ha & Hc & _ & _ & _ & _ & _ & _ & _ & _ & _ & Hh & Hls & _ & Hbm & _ & Hrv & _).
  exists a. split; [exact Ha|]. split; [exact Hc|]. split; [exact Hh|].
  split; [apply Hls; reflexivity|]. split; [apply Hbm; reflexivity|]. apply Hrv; reflexivity.
Defined.

(** ** Bookmarking and unbookmarking *)

Lemma remove_first_notin p l : p ∉ l -> Bookmarked.remove_first p l = l.
Proof.
  induction l as [|q l IH]; intros Hn; [reflexivity|]. cbn.
  rewrite decide_False by (intros ->; apply Hn; left).
  rewrite IH by (intros H; apply Hn; right; exact H). reflexivity.
Qed.

Lemma remove_first_snoc p l : p ∉ l -> Bookmarked.remove_first p (l ++ [p]) = l.
Proof.
  induction l as [|q l IH]; intros Hn; cbn; [rewrite decide_True; reflexivity|].
  rewrite decide_False by (intros ->; apply Hn; left).
  rewrite IH by (intros H; apply Hn; right; exact H). reflexivity.
Qed.

Lemma remove_first_elem p l q : q <> p -> q ∈ Bookmarked.remove_first p l <-> q ∈ l.
Proof.
  intros Hqp. induction l as [|r l IH]; cbn; [reflexivity|].
  destruct (decide (r = p)) as [->|Hr].
  - rewrite elem_of_cons. split; [intros H; right; exact H|intros [H|H]; [congruence|exact H]].
  - rewrite !elem_of_cons, IH. reflexivity.
Qed.

Lemma remove_first_nodup p l :
  NoDup l -> NoDup (Bookmarked.remove_first p l) /\ p ∉ Bookmarked.remove_first p l.
Proof.
  induction l as [|q l IH]; intros Hnd; cbn.
  - split; [constructor|apply not_elem_of_nil].
  - apply NoDup_cons in Hnd as [Hq Hnd].
    destruct (decide (q = p)) as [->|Hqp].
    + split; assumption.
    + destruct (IH Hnd) as [Hnd' Hp']. split.
      * constructor; [|exact Hnd']. rewrite remove_first_elem by exact Hqp. exact Hq.
      * rewrite elem_of_cons. intros [H|H]; [congruence|exact (Hp' H)].
Qed.

Lemma remove_first_app p l1 l2 :
  p ∉ l1 -> Bookmarked.remove_first p (l1 ++ p :: l2) = l1 ++ l2.
Proof.
  induction l1 as [|q l1 IH]; intros Hn; cbn; [rewrite decide_True; reflexivity|].
  rewrite decide_False by (intros ->; apply Hn; left).
  rewrite IH by (intros H; apply Hn; right; exact H). reflexivity.
Qed.

Lemma remove_first_length p l :
  p ∈ l -> length (Bookmarked.remove_first p l) = pred (length l).
Proof.
  induction l as [|q l IH]; intros Hin; [apply elem_of_nil in Hin; done|]. cbn.
  destruct (decide (q = p)) as [->|Hqp]; [reflexivity|].
  apply elem_of_cons in Hin as [->|Hin]; [congruence|].
  cbn. rewrite IH by exact Hin. destruct l; [apply elem_of_nil in Hin; done|]. reflexivity.
Qed.

(** X8. [bookmark_selected_patch] appends the patch when it is not bookmarked
    yet and changes nothing otherwise: afterwards the patch is bookmarked,
    a second call changes nothing, a duplicate-free collection stays so,
    and the cursor does not move. *)
Theorem bookmark_adds_once (s : BookmarkedPatchsetsState) (p : Patch) :
  let s' := Bookmarked.bookmark_selected_patch s p in
  p ∈ bookmarked_patchsets s' /\
  Bookmarked.bookmark_selected_patch s' p = s' /\
  bps_patchset_index s' = bps_patchset_index s /\
  (p ∉ bookmarked_patchsets s -> bookmarked_patchsets s' = bookmarked_patchsets s ++ [p]) /\
  (p ∈ bookmarked_patchsets s -> s' = s) /\
  (NoDup (bookmarked_patchsets s) -> NoDup (bookmarked_patchsets s')).
Proof.
  intros s'. unfold s', Bookmarked.bookmark_selected_patch.
  destruct (decide (p ∈ bookmarked_patchsets s)) as [Hin|Hn]; cbn.
  - rewrite decide_True by exact Hin. repeat split; try assumption; try reflexivity; try contradiction.
    intros H; exact H.
  - rewrite decide_True by (apply elem_of_app; right; left).
    split; [apply elem_of_app; right; left|]. split; [reflexivity|]. split; [reflexivity|].
    split; [reflexivity|]. split; [contradiction|].
    intros Hnd. apply NoDup_app. split; [exact Hnd|]. split; [|apply NoDup_singleton].
    intros q Hq Hq'. apply list_elem_of_singleton in Hq'. subst. contradiction.
Qed.

Lemma bookmark_adds_once_witness :
  let s := mkBookmarked [mkPatch "a" "1"] 0 in
  let s' := Bookmarked.bookmark_selected_patch s (mkPatch "b" "2") in
  mkPatch "b" "2" ∈ bookmarked_patchsets s' /\
  Bookmarked.bookmark_selected_patch s' (mkPatch "b" "2") = s' /\
  bps_patchset_index s' = bps_patchset_index s /\
  (mkPatch "b" "2" ∉ bookmarked_patchsets s -> bookmarked_patchsets s' = bookmarked_patchsets s ++ [mkPatch "b" "2"]) /\
  (mkPatch "b" "2" ∈ bookmarked_patchsets s -> s' = s) /\
  (NoDup (bookmarked_patchsets s) -> NoDup (bookmarked_patchsets s')).
Proof. apply bookmark_adds_once. Defined.

(** X9. Unbookmarking a patch removes its first occurrence and nothing else:
    on a collection [l1 ++ p :: l2] with [p] not in [l1] it leaves
    [l1 ++ l2] (a later occurrence of [p] stays) and keeps the cursor; it
    undoes the bookmarking of a patch that was not bookmarked, it is a
    no-op on a patch that is not bookmarked, and on a duplicate-free
    collection the patch is gone afterwards while every other patch stays. *)
Theorem unbookmark_undoes_bookmark (s : BookmarkedPatchsetsState) (p : Patch) :
  (forall l1 l2, p ∉ l1 -> bookmarked_patchsets s = l1 ++ p :: l2 ->
   Bookmarked.unbookmark_selected_patch s p = mkBookmarked (l1 ++ l2) (bps_patchset_index s)) /\
  (p ∉ bookmarked_patchsets s ->
   Bookmarked.unbookmark_selected_patch (Bookmarked.bookmark_selected_patch s p) p = s /\
   Bookmarked.unbookmark_selected_patch s p = s) /\
  (NoDup (bookmarked_patchsets s) ->
   let l' := bookmarked_patchsets (Bookmarked.unbookmark_selected_patch s p) in
   NoDup l' /\ (p ∉ l') /\ forall q, q <> p -> (q ∈ l' <-> q ∈ bookmarked_patchsets s)).
Proof.
  destruct s as [l i]. cbn. split; [|split].
  - intros l1 l2 Hn ->. unfold Bookmarked.unbookmark_selected_patch. cbn.
    rewrite remove_first_app by exact Hn. reflexivity.
  - intros Hn. unfold Bookmarked.bookmark_selected_patch, Bookmarked.unbookmark_selected_patch. cbn.
    rewrite decide_False by exact Hn. cbn. rewrite remove_first_snoc, remove_first_notin by exact Hn.
    split; reflexivity.
  - intros Hnd. destruct (remove_first_nodup p l Hnd) as [H1 H2].
    split; [exact H1|]. split; [exact H2|]. intros q Hq. apply remove_first_elem. exact Hq.
Qed.

Lemma unbookmark_undoes_bookmark_witness :
  Bookmarked.unbookmark_selected_patch
    (mkBookmarked [mkPatch "b" "2"; mkPatch "a" "1"; mkPatch "b" "2"] 1) (mkPatch "b" "2")
  = mkBookmarked [mkPatch "a" "1"; mkPatch "b" "2"] 1 /\
  Bookmarked.unbookmark_selected_patch
    (Bookmarked.bookmark_selected_patch (mkBookmarked [mkPatch "a" "1"] 0) (mkPatch "b" "2")) (mkPatch "b" "2")
  = mkBookmarked [mkPatch "a" "1"] 0 /\
  Bookmarked.unbookmark_selected_patch (mkBookmarked [mkPatch "a" "1"] 0) (mkPatch "b" "2")
  = mkBookmarked [mkPatch "a" "1"] 0.
Proof.
  split.
  - apply (proj1 (unbookmark_undoes_bookmark
                    (mkBookmarked [mkPatch "b" "2"; mkPatch "a" "1"; mkPatch "b" "2"] 1) (mkPatch "b" "2"))
             [] [mkPatch "a" "1"; mkPatch "b" "2"]); [apply not_elem_of_nil|reflexivity].
  - apply (proj1 (proj2 (unbookmark_undoes_bookmark (mkBookmarked [mkPatch "a" "1"] 0) (mkPatch "b" "2")))).
    cbn. rewrite list_elem_of_singleton. discriminate.
Defined.

(** ** What a computation of [M] leaves unchanged *)

Section Frame.

Context (R : App -> App -> Prop) `{!PreOrder R}.

Lemma frame_bind {A B} (m : M A) (k : A -> M B) :
  frame R m -> (forall v, frame R (k v)) -> frame R (bind m k).
Proof.
  intros Hm Hk s. unfold bind. specialize (Hm s).
  destruct (m s) as [[tr s1] r]. cbn in Hm.
  destruct r as [v|e|]; cbn; [|exact Hm|exact Hm].
  specialize (Hk v s1). destruct (k v s1) as [[tr2 s2] r2]. cbn in *. etrans; eassumption.
Qed.

Lemma frame_still {A} (m : M A) : (forall s, (m s).1.2 = s) -> frame R m.
Proof. intros H s. rewrite H. reflexivity. Qed.

Lemma frame_modify f : (forall s, R s (f s)) -> frame R (modify f).
Proof. intros H s. exact (H s). Qed.

Lemma frame_get : frame R get.
Proof. apply frame_still. reflexivity. Qed.

Lemma frame_ret {A} (v : A) : frame R (ret v).
Proof. apply frame_still. reflexivity. Qed.

Lemma frame_emit ev : frame R (emit ev).
Proof. apply frame_still. reflexivity. Qed.

Lemma frame_bail {A} e : frame R (@bail A e).
Proof. apply frame_still. reflexivity. Qed.

Lemma frame_panic {A} : frame R (@panic A).
Proof. apply frame_still. reflexivity. Qed.

Lemma frame_lift_outcome {A} (r : outcome A) : frame R (lift_outcome r).
Proof. apply frame_still. reflexivity. Qed.

Lemma frame_lift_traced {A} (c : list Event * outcome A) : frame R (lift_traced c).
Proof. apply frame_still. reflexivity. Qed.

Lemma frame_unwrap_details : frame R unwrap_details.
Proof.
  apply frame_still. intros s. unfold unwrap_details.
  destruct (patchset_details_and_actions_state s); reflexivity.
Qed.

Lemma frame_get_action d act : frame R (get_action d act).
Proof. unfold get_action. destruct (patchset_actions d !! act); [apply frame_ret|apply frame_panic]. Qed.

Lemma frame_save_bookmarked x l path : frame R (save_bookmarked x l path).
Proof.
  unfold save_bookmarked. apply frame_bind; [apply frame_emit|intros _].
  destruct (save_bookmarked_patchsets x l path); [apply frame_bail|apply frame_ret].
Qed.

Lemma frame_save_reviewed x m path : frame R (save_reviewed x m path).
Proof.
  unfold save_reviewed. apply frame_bind; [apply frame_emit|intros _].
  destruct (save_reviewed_patchsets x m path); [apply frame_bail|apply frame_ret].
Qed.

End Frame.

Ltac frame_solve :=
  repeat match goal with
  | |- PreOrder _ => typeclasses eauto
  | |- forall _, _ => intros ?
  | |- frame _ (bind _ _) => apply frame_bind
  | |- frame _ get => apply frame_get
  | |- frame _ (ret _) => apply frame_ret
  | |- frame _ (emit _) => apply frame_emit
  | |- frame _ (bail _) => apply frame_bail
  | |- frame _ panic => apply frame_panic
  | |- frame _ (lift_outcome _) => apply frame_lift_outcome
  | |- frame _ (lift_traced _) => apply frame_lift_traced
  | |- frame _ unwrap_details => apply frame_unwrap_details
  | |- frame _ (get_action _ _) => apply frame_get_action
  | |- frame _ (save_bookmarked _ _ _) => apply frame_save_bookmarked
  | |- frame _ (save_reviewed _ _ _) => apply frame_save_reviewed
  | |- frame _ (modify _) => apply frame_modify; intros ?
  | |- frame _ (if ?b then _ else _) => destruct b
  | |- frame _ (match ?x with _ => _ end) => destruct x
  end.

Lemma bookmark_step_cursor a d b :
  bps_patchset_index (bookmark_step a d b) = bps_patchset_index (bookmarked_patchsets_state a).
Proof.
  unfold bookmark_step, Bookmarked.bookmark_selected_patch, Bookmarked.unbookmark_selected_patch.
  destruct b; [destruct (decide _)|]; reflexivity.
Qed.

Lemma consolidate_keeps_cursor x : frame same_bookmark_cursor (AppM.consolidate_patchset_actions x).
Proof.
  unfold AppM.consolidate_patchset_actions. frame_solve; unfold same_bookmark_cursor; try reflexivity.
  cbn [bookmarked_patchsets_state set_bookmarked_state].
  match goal with |- context [if ?b then _ else _] => destruct b end;
    unfold Bookmarked.bookmark_selected_patch; [destruct (decide _)|]; reflexivity.
Qed.

Lemma consolidate_bookmarks x a d b :
  patchset_details_and_actions_state a = Some d -> patchset_actions d !! Bookmark = Some b ->
  bookmarked_patchsets_state (AppM.consolidate_patchset_actions x a).1.2 = bookmark_step a d b.
Proof.
  intros Hd Hb. unfold AppM.consolidate_patchset_actions.
  rewrite (bind_state_ok _ _ a [] a d (unwrap_details_run a d Hd)).
  rewrite (bind_state_ok _ _ a [] a b (get_action_run d Bookmark b a Hb)).
  rewrite (bind_state_ok (modify _) _ a [] _ tt) by reflexivity.
  cbv beta.
  match goal with |- bookmarked_patchsets_state (?m ?s).1.2 = _ =>
    assert (Hf : frame same_bookmarks m) by (frame_solve; reflexivity); rewrite (Hf s) end.
  reflexivity.
Qed.

(** X10. After [consolidate_patchset_actions], whatever its outcome (also when
    a save or the reply step fails): with the bookmark flag set the series
    is bookmarked; with it unset the first occurrence of the series is
    removed from the collection (so the series is no longer bookmarked when
    the collection had no duplicates); every other patch keeps its bookmark
    status; a duplicate-free collection stays so, and on it the series is
    bookmarked exactly when the flag is set; the bookmark cursor has not
    moved. *)
Theorem consolidate_bookmark_matches_flag (x : Ext) (a : App) (d : PatchsetDetailsAndActionsState) (b : bool) :
  patchset_details_and_actions_state a = Some d -> patchset_actions d !! Bookmark = Some b ->
  let l := bookmarked_patchsets (bookmarked_patchsets_state a) in
  let bs' := bookmarked_patchsets_state (AppM.consolidate_patchset_actions x a).1.2 in
  (b = true -> representative_patch d ∈ bookmarked_patchsets bs') /\
  (b = false -> bookmarked_patchsets bs' = Bookmarked.remove_first (representative_patch d) l /\
                (NoDup l -> representative_patch d ∉ bookmarked_patchsets bs')) /\
  (forall q, q <> representative_patch d -> (q ∈ bookmarked_patchsets bs' <-> q ∈ l)) /\
  (NoDup l -> NoDup (bookmarked_patchsets bs') /\
              (representative_patch d ∈ bookmarked_patchsets bs' <-> b = true)) /\
  bps_patchset_index bs' = bps_patchset_index (bookmarked_patchsets_state a).
Proof.
  intros Hd Hb l bs'.
  assert (Hcur : bps_patchset_index bs' = bps_patchset_index (bookmarked_patchsets_state a))
    by exact (consolidate_keeps_cursor x a).
  subst bs'. rewrite (consolidate_bookmarks x a d b Hd Hb) in *. subst l.
  split; [|split; [|split; [|split; [|exact Hcur]]]];
    unfold bookmark_step, Bookmarked.bookmark_selected_patch, Bookmarked.unbookmark_selected_patch in *;
    destruct b; cbn [bookmarked_patchsets] in *; try discriminate.
  - intros _. destruct (decide _) as [Hin|Hn]; cbn; [exact Hin|].
    apply elem_of_app. right. left.
  - intros _. split; [reflexivity|]. intros Hnd. exact (proj2 (remove_first_nodup _ _ Hnd)).
  - intros q Hq. destruct (decide _); cbn; [reflexivity|].
    rewrite elem_of_app, list_elem_of_singleton. split; [intros [H|H]; [exact H|congruence]|intros H; left; exact H].
  - intros q Hq. apply remove_first_elem. exact Hq.
  - intros Hnd. destruct (decide _) as [Hin|Hn]; cbn.
    + split; [exact Hnd|]. split; auto.
    + split.
      * apply NoDup_app. split; [exact Hnd|]. split; [|apply NoDup_singleton].
        intros q Hq Hq'. apply list_elem_of_singleton in Hq'. subst. contradiction.
      * split; [reflexivity|]. intros _. apply elem_of_app. right. left.
  - intros Hnd. split; [exact (proj1 (remove_first_nodup _ _ Hnd))|].
    split; [|discriminate]. intros Hin. exfalso.
    exact (proj2 (remove_first_nodup _ _ Hnd) Hin).
Qed.

Lemma consolidate_bookmark_matches_flag_witness :
  let l := [mkPatch "[PATCH 0/3] x" "msg-0"; mkPatch "a" "1"; mkPatch "[PATCH 0/3] x" "msg-0"] in
  let a := mkApp PatchsetDetails (mkMLS [] "" [] 0 "") (mkBookmarked l 2)
             None (Some details_reply_pending) ∅ (Cfg.default_from_home "/home/dev") in
  let bs' := bookmarked_patchsets_state (AppM.consolidate_patchset_actions (ext_three_replies false) a).1.2 in
  bookmarked_patchsets bs' = [mkPatch "a" "1"; mkPatch "[PATCH 0/3] x" "msg-0"] /\
  bps_patchset_index bs' = 2.
Proof.
  intros l a bs'.
  destruct (consolidate_bookmark_matches_flag (ext_three_replies false) a details_reply_pending false
              eq_refl eq_refl) as (_ & Hfalse & _ & _ & Hcur).
  split; [apply (proj1 (Hfalse eq_refl))|exact Hcur].
Defined.

(** ** Entering the details screen, then consolidating *)

Lemma load_details_run x screen p b a :
  let run := AppM.load_details x screen p b a in
  (run.2 <> Ok tt -> run.1.2 = a) /\
  (run.2 = Ok tt ->
   exists ps, run.1.2 = set_details_state a (Some (mkDetails p ps 0 0 (initial_patchset_actions b) screen))).
Proof.
  unfold AppM.load_details, bind, get, emit, modify, bail. cbn.
  destruct (download_patchset x _ p) as [e|path]; cbn; [split; [reflexivity|discriminate]|].
  destruct (split_patchset x path) as [e|ps]; cbn; [split; [reflexivity|discriminate]|].
  split; [congruence|]. intros _. eexists. reflexivity.
Qed.

Lemma init_run x screen a :
  let run := AppM.init_patchset_details_and_actions_state x screen a in
  (run.2 <> Ok tt -> run.1.2 = a) /\
  (run.2 = Ok tt ->
   (screen = BookmarkedPatchsets \/ screen = LatestPatchsets) /\
   exists p ps,
     run.1.2 = set_details_state a (Some (mkDetails p ps 0 0
                 (initial_patchset_actions (bool_decide (p ∈ bookmarked_patchsets (bookmarked_patchsets_state a))))
                 screen))).
Proof.
  unfold AppM.init_patchset_details_and_actions_state.
  destruct screen; cbn zeta.
  - split; [reflexivity|discriminate].
  - rewrite bind_get. unfold Bookmarked.get_selected_patchset.
    destruct (bookmarked_patchsets (bookmarked_patchsets_state a) !! _) as [p|] eqn:Hp.
    2:{ split; [reflexivity|discriminate]. }
    rewrite bind_lift_ok.
    destruct (load_details_run x BookmarkedPatchsets p true a) as [H1 H2].
    split; [exact H1|]. intros Hok. split; [left; reflexivity|].
    destruct (H2 Hok) as [ps Hps]. exists p, ps. rewrite Hps.
    rewrite bool_decide_eq_true_2; [reflexivity|]. eapply list_elem_of_lookup_2. exact Hp.
  - rewrite bind_get. destruct (latest_patchsets_state a) as [l|].
    2:{ split; [reflexivity|discriminate]. }
    rewrite bind_lift_ok. destruct (Latest_get_selected_patchset l) as [p| |].
    2,3: split; [reflexivity|discriminate].
    rewrite bind_lift_ok.
    destruct (load_details_run x LatestPatchsets p
                (bool_decide (p ∈ bookmarked_patchsets (bookmarked_patchsets_state a))) a) as [H1 H2].
    split; [exact H1|]. intros Hok. split; [right; reflexivity|].
    destruct (H2 Hok) as [ps Hps]. exists p, ps. exact Hps.
  - split; [reflexivity|discriminate].
Qed.

(** X11. [init_patchset_details_and_actions_state] is all or nothing: when it
    does not return [Ok] the application state is unchanged; when it does,
    the origin was the bookmarked or the latest screen and the only change
    is a fresh details sub-state (first patch previewed, no scroll, reply
    flag off) whose bookmark flag tells whether the chosen series is
    bookmarked. From any other screen it returns an error and does
    nothing. *)
Theorem init_details_all_or_nothing (x : Ext) (screen : CurrentScreen) (a : App) :
  let run := AppM.init_patchset_details_and_actions_state x screen a in
  (run.2 <> Ok tt -> run.1.2 = a) /\
  (run.2 = Ok tt ->
   (screen = BookmarkedPatchsets \/ screen = LatestPatchsets) /\
   exists p ps,
     run.1.2 = set_details_state a (Some (mkDetails p ps 0 0
                 (initial_patchset_actions (bool_decide (p ∈ bookmarked_patchsets (bookmarked_patchsets_state a))))
                 screen))) /\
  (screen = MailingListSelection \/ screen = PatchsetDetails ->
   run = ([], a, Err ("Invalid screen passed as argument " +:+ AppM.screen_name screen)%string)).
Proof.
  intros run. destruct (init_run x screen a) as [H1 H2].
  split; [exact H1|]. split; [exact H2|].
  intros [-> | ->]; reflexivity.
Qed.

Lemma init_details_all_or_nothing_witness :
  let run := AppM.init_patchset_details_and_actions_state ext_no_identity PatchsetDetails (app_with_bookmarks []) in
  (run.2 <> Ok tt -> run.1.2 = app_with_bookmarks []) /\
  run = ([], app_with_bookmarks [], Err ("Invalid screen passed as argument " +:+ AppM.screen_name PatchsetDetails)%string).
Proof.
  intros run. destruct (init_details_all_or_nothing ext_no_identity PatchsetDetails (app_with_bookmarks []))
    as (H1 & _ & H3).
  split; [exact H1|]. apply H3. right. reflexivity.
Defined.

(** X12. Entering the details screen and consolidating right away, without
    toggling any flag, leaves the bookmarked collection as it was, whether
    the series came from the bookmarked or from the latest screen and
    whatever the outcome of the consolidation. *)
Theorem init_then_consolidate_keeps_bookmarks (x : Ext) (screen : CurrentScreen) (a a1 : App) tr :
  AppM.init_patchset_details_and_actions_state x screen a = (tr, a1, Ok tt) ->
  bookmarked_patchsets_state (AppM.consolidate_patchset_actions x a1).1.2 = bookmarked_patchsets_state a.
Proof.
  intros Hrun. destruct (init_run x screen a) as [_ H2]. rewrite Hrun in H2. cbn in H2.
  destruct (H2 eq_refl) as [_ (p & ps & ->)].
  set (b := bool_decide (p ∈ bookmarked_patchsets (bookmarked_patchsets_state a))).
  rewrite (consolidate_bookmarks x (set_details_state a (Some (mkDetails p ps 0 0 (initial_patchset_actions b) screen)))
             (mkDetails p ps 0 0 (initial_patchset_actions b) screen) b eq_refl)
    by (cbn; unfold initial_patchset_actions; rewrite lookup_insert_ne by discriminate; apply lookup_insert_eq).
  unfold bookmark_step, Bookmarked.bookmark_selected_patch, Bookmarked.unbookmark_selected_patch. cbn.
  subst b. destruct (bool_decide_reflect (p ∈ bookmarked_patchsets (bookmarked_patchsets_state a))) as [Hin|Hn].
  - rewrite decide_True by exact Hin. reflexivity.
  - rewrite remove_first_notin by exact Hn. destruct (bookmarked_patchsets_state a); reflexivity.
Qed.

Lemma init_then_consolidate_keeps_bookmarks_witness :
  bookmarked_patchsets_state
    (AppM.consolidate_patchset_actions ext_no_identity
       (AppM.init_patchset_details_and_actions_state ext_no_identity BookmarkedPatchsets
          (app_with_bookmarks [mkPatch "t" "m"])).1.2).1.2
  = bookmarked_patchsets_state (app_with_bookmarks [mkPatch "t" "m"]).
Proof.
  apply (init_then_consolidate_keeps_bookmarks ext_no_identity BookmarkedPatchsets
           (app_with_bookmarks [mkPatch "t" "m"]) _
           [EvDownload "/home/dev/.cache/patch_hub/patchsets" (mkPatch "t" "m"); EvSplit "p"]).
  reflexivity.
Defined.

(** X13. Consolidation does not adjust the bookmark cursor: whatever the
    state and the outcome, the cursor afterwards is the cursor before. So
    unbookmarking a bookmarked series while the cursor is on the last entry
    of the collection leaves the cursor equal to the new length, one past
    the end, and entering the details screen from the bookmarked screen
    right after panics. *)
Theorem consolidate_unbookmark_last_leaves_cursor_past_end (x : Ext) (a : App) :
  bps_patchset_index (bookmarked_patchsets_state (AppM.consolidate_patchset_actions x a).1.2)
    = bps_patchset_index (bookmarked_patchsets_state a) /\
  (forall (d : PatchsetDetailsAndActionsState) (l : list Patch) (i : Z),
   patchset_details_and_actions_state a = Some d ->
   patchset_actions d !! Bookmark = Some false ->
   bookmarked_patchsets_state a = mkBookmarked l i ->
   representative_patch d ∈ l ->
   i = Z.of_nat (length l) - 1 ->
   let a' := (AppM.consolidate_patchset_actions x a).1.2 in
   bps_patchset_index (bookmarked_patchsets_state a')
     = Z.of_nat (length (bookmarked_patchsets (bookmarked_patchsets_state a'))) /\
   AppM.init_patchset_details_and_actions_state x BookmarkedPatchsets a' = ([], a', Panic)).
Proof.
  split; [exact (consolidate_keeps_cursor x a)|].
  intros d l i Hd Hb Hbs Hin Hi a'.
  assert (Hbs' : bookmarked_patchsets_state a' = mkBookmarked (Bookmarked.remove_first (representative_patch d) l) i).
  { subst a'. rewrite (consolidate_bookmarks x a d false Hd Hb).
    unfold bookmark_step, Bookmarked.unbookmark_selected_patch. rewrite Hbs. reflexivity. }
  assert (Hlen : length (Bookmarked.remove_first (representative_patch d) l) = pred (length l))
    by exact (remove_first_length _ _ Hin).
  assert (Hl : length l <> 0%nat) by (destruct l; [apply elem_of_nil in Hin; done|discriminate]).
  rewrite Hbs'. cbn [bookmarked_patchsets bps_patchset_index]. split; [rewrite Hlen; lia|].
  unfold AppM.init_patchset_details_and_actions_state, bind, get, lift_outcome.
  unfold Bookmarked.get_selected_patchset. rewrite Hbs'. cbn [bookmarked_patchsets bps_patchset_index].
  rewrite lookup_ge_None_2 by lia. reflexivity.
Qed.

Lemma consolidate_unbookmark_last_leaves_cursor_past_end_witness :
  let d := mkDetails (mkPatch "b" "2") ["m"]%string 0 0 (initial_patchset_actions false) BookmarkedPatchsets in
  let a := mkApp PatchsetDetails (mkMLS [] "" [] 0 "") (mkBookmarked [mkPatch "a" "1"; mkPatch "b" "2"] 1)
             None (Some d) ∅ (Cfg.default_from_home "/home/dev") in
  let a' := (AppM.consolidate_patchset_actions ext_no_identity a).1.2 in
  bps_patchset_index (bookmarked_patchsets_state a')
    = Z.of_nat (length (bookmarked_patchsets (bookmarked_patchsets_state a'))) /\
  AppM.init_patchset_details_and_actions_state ext_no_identity BookmarkedPatchsets a' = ([], a', Panic).
Proof.
  intros d a a'.
  apply (proj2 (consolidate_unbookmark_last_leaves_cursor_past_end ext_no_identity a)
           d [mkPatch "a" "1"; mkPatch "b" "2"] 1);
    [reflexivity|reflexivity|reflexivity| |reflexivity].
  right. left.
Defined.

(** X14. With the reply flag off, consolidation has one effect, the
    persistence of the updated bookmarked collection: it changes nothing
    but that collection (the review index and the details sub-state are
    left as they are) and returns the outcome of that save. *)
Theorem consolidate_without_reply_only_saves_bookmarks (x : Ext) (a : App)
  (d : PatchsetDetailsAndActionsState) (b : bool) :
  patchset_details_and_actions_state a = Some d ->
  patchset_actions d !! Bookmark = Some b ->
  patchset_actions d !! ReplyWithReviewedBy = Some false ->
  let bps' := bookmark_step a d b in
  let path := bookmarked_patchsets_path (config a) in
  AppM.consolidate_patchset_actions x a
  = ([EvSaveBookmarked (bookmarked_patchsets bps') path], set_bookmarked_state a bps',
     match save_bookmarked_patchsets x (bookmarked_patchsets bps') path with
     | None => Ok tt
     | Some e => Err e
     end).
Proof.
  intros Hd Hb Hr bps' path.
  unfold AppM.consolidate_patchset_actions.
  rewrite (bind_unwrap_details _ _ _ Hd), (bind_get_action _ _ _ _ _ Hb), bind_modify, bind_get.
  unfold bookmark_step in bps'. fold bps'. cbn [bookmarked_patchsets_state config set_bookmarked_state]. fold path.
  destruct (save_bookmarked_patchsets x (bookmarked_patchsets bps') path) as [e|] eqn:Hs.
  - rewrite (bind_save_bookmarked_err _ _ _ _ _ _ Hs). reflexivity.
  - rewrite (bind_save_bookmarked_ok _ _ _ _ _ Hs).
    rewrite (bind_unwrap_details _ (set_bookmarked_state a bps') d Hd).
    rewrite (bind_get_action _ _ _ _ _ Hr). reflexivity.
Qed.

Lemma consolidate_without_reply_only_saves_bookmarks_witness :
  let d := mkDetails (mkPatch "t" "m") ["m"]%string 0 0 (initial_patchset_actions true) LatestPatchsets in
  let a := mkApp PatchsetDetails (mkMLS [] "" [] 0 "") (mkBookmarked [] 0) None (Some d) ∅
             (Cfg.default_from_home "/home/dev") in
  AppM.consolidate_patchset_actions (ext_three_replies false) a
  = ([EvSaveBookmarked [mkPatch "t" "m"] "/home/dev/.local/share/patch_hub/bookmarked_patchsets.json"],
     set_bookmarked_state a (mkBookmarked [mkPatch "t" "m"] 0), Err "disk full"%string).
Proof.
  intros d a.
  apply (consolidate_without_reply_only_saves_bookmarks (ext_three_replies false) a d true); reflexivity.
Defined.

(** X15. When the reply step fails, consolidation returns the error after the
    bookmark save and leaves the reply flag set, so the reply is attempted
    again at the next consolidation: if the reply workflow itself fails,
    the review index is unchanged; if it succeeds for some indexes but
    saving the review index fails, the index in memory already holds them. *)
Theorem consolidate_reply_failure_keeps_flag (x : Ext) (a : App)
  (d : PatchsetDetailsAndActionsState) (b : bool) :
  patchset_details_and_actions_state a = Some d ->
  patchset_actions d !! Bookmark = Some b ->
  patchset_actions d !! ReplyWithReviewedBy = Some true ->
  let bps' := bookmark_step a d b in
  let path := bookmarked_patchsets_path (config a) in
  save_bookmarked_patchsets x (bookmarked_patchsets bps') path = None ->
  (forall tr e, Details.reply_patchset_with_reviewed_by x d "all" = (tr, Err e) ->
     AppM.consolidate_patchset_actions x a
     = (EvSaveBookmarked (bookmarked_patchsets bps') path :: tr, set_bookmarked_state a bps', Err e)) /\
  (forall tr i rest e,
     let reviewed' := <[patch_message_id (representative_patch d) := i :: rest]> (reviewed_patchsets a) in
     Details.reply_patchset_with_reviewed_by x d "all" = (tr, Ok (i :: rest)) ->
     save_reviewed_patchsets x reviewed' (reviewed_patchsets_path (config a)) = Some e ->
     AppM.consolidate_patchset_actions x a
     = (EvSaveBookmarked (bookmarked_patchsets bps') path ::
          tr ++ [EvSaveReviewed reviewed' (reviewed_patchsets_path (config a))],
        set_reviewed (set_bookmarked_state a bps') reviewed', Err e)).
Proof.
  intros Hd Hb Hr bps' path Hsb.
  unfold AppM.consolidate_patchset_actions.
  rewrite (bind_unwrap_details _ _ _ Hd), (bind_get_action _ _ _ _ _ Hb), bind_modify, bind_get.
  unfold bookmark_step in bps'. fold bps'. cbn [bookmarked_patchsets_state config set_bookmarked_state]. fold path.
  rewrite (bind_save_bookmarked_ok _ _ _ _ _ Hsb).
  rewrite (bind_unwrap_details _ (set_bookmarked_state a bps') d Hd).
  rewrite (bind_get_action _ _ _ _ _ Hr). cbv beta iota.
  rewrite (bind_unwrap_details _ (set_bookmarked_state a bps') d Hd).
  split.
  - intros tr e Hrep. rewrite Hrep. reflexivity.
  - intros tr i rest e. cbv zeta. intros Hrep Hsr. rewrite Hrep, bind_lift_traced_ok.
    unfold bind, modify, get, save_reviewed, emit.
    cbn [reviewed_patchsets set_reviewed config set_bookmarked_state fst snd].
    rewrite Hsr. reflexivity.
Qed.

Lemma consolidate_reply_failure_keeps_flag_witness :
  let x := mkExt (fun _ _ => None) (fun _ _ => Some "disk full"%string)
             ("Dev"%string, "dev@example.org"%string) (Some "/tmp/tmp.1"%string)
             (fun _ _ _ _ => inr ["reply 0"%string]) (fun _ => Some true)
             (fun _ _ => inr "/cache/p"%string) (fun _ => inr ["m0"%string]) in
  (AppM.consolidate_patchset_actions x app_reply_pending).2 = Err "disk full"%string.
Proof.
  intros x.
  destruct (consolidate_reply_failure_keeps_flag x app_reply_pending details_reply_pending false
              eq_refl eq_refl eq_refl eq_refl) as [_ H2].
  rewrite (H2 _ 0 [] "disk full"%string eq_refl eq_refl). reflexivity.
Defined.

(** ** The loop over the prepared reply commands *)

Lemma run_reply_commands_panics x n cmds tr r :
  (exists c, c ∈ cmds /\ run_command x c = None) ->
  Details.run_reply_commands x n cmds = (tr, r) -> r = Panic.
Proof.
  intros [c [Hin Hc]]. revert n tr r. induction cmds as [|c0 cs IH]; intros n tr r Hrun.
  - apply elem_of_nil in Hin. done.
  - cbn in Hrun. destruct (run_command x c0) as [succ|] eqn:Hc0.
    + destruct (Details.run_reply_commands x (n + 1) cs) as [tr' r'] eqn:Hr'.
      injection Hrun as <- <-. apply elem_of_cons in Hin as [->|Hin]; [congruence|].
      rewrite (IH Hin _ _ _ Hr'). reflexivity.
    + injection Hrun as <- <-. reflexivity.
Qed.

(** X16. Running the prepared commands from index [n] (the loop starts at 0):
    the commands are run in order, each under its own index, and the loop
    never bails. When it returns, the successful indexes are strictly
    increasing and are exactly those of the commands that exited
    successfully; it returns as soon as every command could be spawned, and
    panics otherwise. The hypothesis keeps the indexes within [u32]. *)
Theorem run_reply_commands_correct (x : Ext) (n : Z) (cmds : list string) tr r :
  0 <= n -> n + Z.of_nat (length cmds) <= 2 ^ 32 ->
  Details.run_reply_commands x n cmds = (tr, r) ->
  (forall e, r <> Err e) /\
  (forall idxs, r = Ok idxs ->
     tr = zip_with EvRunCommand (seqZ n (Z.of_nat (length cmds))) cmds /\
     StronglySorted Z.lt idxs /\
     (forall i, i ∈ idxs <->
        n <= i /\ exists c, cmds !! Z.to_nat (i - n) = Some c /\ run_command x c = Some true)) /\
  ((forall c, c ∈ cmds -> is_Some (run_command x c)) -> exists idxs, r = Ok idxs) /\
  ((exists c, c ∈ cmds /\ run_command x c = None) -> r = Panic).
Proof.
  intros Hn Hlen Hrun.
  cut ((forall e, r <> Err e) /\
       (forall idxs, r = Ok idxs ->
          tr = zip_with EvRunCommand (seqZ n (Z.of_nat (length cmds))) cmds /\
          StronglySorted Z.lt idxs /\
          (forall i, i ∈ idxs <->
             n <= i /\ exists c, cmds !! Z.to_nat (i - n) = Some c /\ run_command x c = Some true)) /\
       ((forall c, c ∈ cmds -> is_Some (run_command x c)) -> exists idxs, r = Ok idxs)).
  { intros (H1 & H2 & H3). split; [exact H1|]. split; [exact H2|]. split; [exact H3|].
    intros Hc. exact (run_reply_commands_panics x n cmds tr r Hc Hrun). }
  revert Hn Hlen Hrun.
  revert n tr r. induction cmds as [|c cs IH]; intros n tr r Hn Hlen Hrun.
  - cbn in Hrun. injection Hrun as <- <-. split; [discriminate|]. split.
    + intros idxs [= <-]. split; [reflexivity|]. split; [constructor|].
      intros i. rewrite elem_of_nil. split; [done|]. intros [_ [c [Hc _]]].
      rewrite lookup_nil in Hc. discriminate.
    + intros _. eauto.
  - cbn [length] in Hlen. rewrite Nat2Z.inj_succ in Hlen.
    cbn in Hrun. destruct (run_command x c) as [succ|] eqn:Hc.
    + destruct (Details.run_reply_commands x (n + 1) cs) as [tr' r'] eqn:Hr'.
      injection Hrun as <- <-.
      destruct (IH (n + 1) tr' r' ltac:(lia) ltac:(lia) Hr') as [Hne [Hok Hall]].
      split; [intros e He; destruct r' as [?|e'|]; try discriminate;
              injection He as He; subst; exact (Hne _ eq_refl)|].
      split.
      * intros idxs Hidxs. destruct r' as [idxs'| e |]; try discriminate.
        injection Hidxs as <-. destruct (Hok idxs' eq_refl) as [Htr [Hsort Hmem]].
        rewrite wrap32_small by lia.
        assert (Hseq : seqZ n (Z.of_nat (length (c :: cs))) = n :: seqZ (n + 1) (Z.of_nat (length cs))).
        { cbn [length]. rewrite Nat2Z.inj_succ, seqZ_cons by lia. f_equal; f_equal; lia. }
        rewrite Hseq. cbn [zip_with]. rewrite Htr. split; [reflexivity|].
        assert (Hstep : forall i, n + 1 <= i ->
                  (c :: cs) !! Z.to_nat (i - n) = cs !! Z.to_nat (i - (n + 1))).
        { intros i Hi. replace (Z.to_nat (i - n)) with (S (Z.to_nat (i - (n + 1)))) by lia.
          reflexivity. }
        assert (Hhead : (c :: cs) !! Z.to_nat (n - n) = Some c).
        { replace (n - n) with 0 by lia. reflexivity. }
        destruct succ.
        -- split.
           ++ constructor; [exact Hsort|]. apply Forall_forall. intros i Hi.
              apply Hmem in Hi. lia.
           ++ intros i. rewrite elem_of_cons, Hmem. split.
              ** intros [-> | [Hi [c' [Hc' Hs]]]]; [split; [lia|eauto]|].
                 split; [lia|]. exists c'. rewrite Hstep by lia. auto.
              ** intros [Hi [c' [Hc' Hs]]].
                 destruct (decide (i = n)) as [->|Hin]; [left; reflexivity|right].
                 split; [lia|]. exists c'. rewrite <- Hstep by lia. auto.
        -- split; [exact Hsort|].
           intros i. rewrite Hmem. split.
           ++ intros [Hi [c' [Hc' Hs]]]. split; [lia|]. exists c'. rewrite Hstep by lia. auto.
           ++ intros [Hi [c' [Hc' Hs]]].
              destruct (decide (i = n)) as [->|Hin].
              ** rewrite Hhead in Hc'. injection Hc' as <-. congruence.
              ** split; [lia|]. exists c'. rewrite <- Hstep by lia. auto.
      * intros Hspawn. destruct Hall as [idxs' ->].
        { intros c' Hc'. apply Hspawn. rewrite elem_of_cons. auto. }
        eauto.
    + injection Hrun as <- <-. split; [discriminate|]. split; [discriminate|].
      intros Hspawn. destruct (Hspawn c) as [? Hs]; [apply list_elem_of_here|]. congruence.
Qed.

Lemma run_reply_commands_correct_witness :
  StronglySorted Z.lt [0; 2] /\
  (1 ∈ [0; 2] <->
   0 <= 1 /\ exists c, ["reply 0"; "reply 1"; "reply 2"]%string !! Z.to_nat (1 - 0) = Some c /\
                       run_command (ext_three_replies true) c = Some true) /\
  (Details.run_reply_commands ext_spawn_fails 0 ["reply 0"; "reply 1"; "reply 2"]%string).2 = Panic.
Proof.
  destruct (run_reply_commands_correct (ext_three_replies true) 0 ["reply 0"; "reply 1"; "reply 2"]%string
              _ _ ltac:(lia) ltac:(cbn; lia) eq_refl) as [_ [Hok _]].
  destruct (Hok [0; 2] eq_refl) as (_ & Hsort & Hmem). split; [exact Hsort|]. split; [apply Hmem|].
  destruct (run_reply_commands_correct ext_spawn_fails 0 ["reply 0"; "reply 1"; "reply 2"]%string
              _ _ ltac:(lia) ltac:(cbn; lia) eq_refl) as (_ & _ & _ & Hpanic).
  apply Hpanic. exists "reply 1"%string. split; [right; left|reflexivity].
Defined.

Lemma run_reply_commands_runs_listed x n cmds tr r i c :
  Details.run_reply_commands x n cmds = (tr, r) -> EvRunCommand i c ∈ tr ->
  n <= i /\ cmds !! Z.to_nat (i - n) = Some c.
Proof.
  revert n tr r. induction cmds as [|c0 cs IH]; intros n tr r Hrun Hin.
  - cbn in Hrun. injection Hrun as <- <-. apply elem_of_nil in Hin. done.
  - cbn in Hrun. destruct (run_command x c0) as [succ|].
    + destruct (Details.run_reply_commands x (n + 1) cs) as [tr' r'] eqn:Hr'.
      injection Hrun as <- <-. apply elem_of_cons in Hin as [[= -> ->]|Hin].
      * split; [lia|]. rewrite Z.sub_diag. reflexivity.
      * destruct (IH _ _ _ Hr' Hin) as [Hi Hc]. split; [lia|].
        replace (Z.to_nat (i - n)) with (S (Z.to_nat (i - (n + 1)))) by lia. exact Hc.
    + injection Hrun as <- <-. apply list_elem_of_singleton in Hin. injection Hin as -> ->.
      split; [lia|]. rewrite Z.sub_diag. reflexivity.
Qed.

Lemma run_reply_commands_never_bails x n cmds tr e :
  Details.run_reply_commands x n cmds <> (tr, Err e).
Proof.
  revert n tr. induction cmds as [|c cs IH]; intros n tr Hr.
  - cbn in Hr. discriminate.
  - cbn in Hr. destruct (run_command x c) as [succ|]; [|discriminate].
    destruct (Details.run_reply_commands x (n + 1) cs) as [tr' r'] eqn:Hr'.
    injection Hr as _ Hr. destruct r'; try discriminate. injection Hr as ->. exact (IH _ _ Hr').
Qed.

(** X17. The reply workflow runs no command unless a git identity is set and
    the temporary directory and the prepared commands were obtained: every
    command it runs is the prepared command of its index, prepared for the
    patches of the series with the signature [name <email>]. The only error
    it returns is the one of the preparation. *)
Theorem reply_runs_only_prepared_commands (x : Ext) (d : PatchsetDetailsAndActionsState)
  (target : string) tr r :
  Details.reply_patchset_with_reviewed_by x d target = (tr, r) ->
  let '(name, email) := get_git_signature x in
  let signature := (name +:+ " <" +:+ email +:+ ">")%string in
  (forall e, r = Err e ->
     exists tmp, mktemp_directory x = Some tmp /\
       prepare_reply_patchset_with_reviewed_by x tmp target (patches d) signature = inl e) /\
  (forall i c, EvRunCommand i c ∈ tr ->
     name <> ""%string /\ email <> ""%string /\ 0 <= i /\
     exists tmp cmds, mktemp_directory x = Some tmp /\
       prepare_reply_patchset_with_reviewed_by x tmp target (patches d) signature = inr cmds /\
       cmds !! Z.to_nat i = Some c).
Proof.
  unfold Details.reply_patchset_with_reviewed_by.
  destruct (get_git_signature x) as [name email].
  destruct (decide (name = "" \/ email = "")%string) as [Hid|Hid].
  - intros [= <- <-]. split; [discriminate|].
    intros i c Hin. apply list_elem_of_singleton in Hin. discriminate.
  - destruct (mktemp_directory x) as [tmp|].
    + destruct (prepare_reply_patchset_with_reviewed_by x tmp target (patches d) _) as [e|cmds] eqn:Hp.
      * intros [= <- <-]. split.
        -- intros e' [= <-]. eauto.
        -- intros i c Hin. rewrite elem_of_cons, list_elem_of_singleton in Hin.
           destruct Hin as [Hin|Hin]; discriminate.
      * destruct (Details.run_reply_commands x 0 cmds) as [tr' r'] eqn:Hr.
        intros [= <- <-].
        split.
        -- intros e ->. exfalso. exact (run_reply_commands_never_bails x 0 cmds tr' e Hr).
        -- intros i c Hin. rewrite !elem_of_cons in Hin.
           destruct Hin as [Hin|[Hin|Hin]]; [discriminate|discriminate|].
           destruct (run_reply_commands_runs_listed x 0 cmds tr' r' i c Hr Hin) as [Hi Hc].
           split; [tauto|]. split; [tauto|]. split; [lia|].
           exists tmp, cmds. rewrite Z.sub_0_r in Hc. auto.
    + intros [= <- <-]. split; [discriminate|].
      intros i c Hin. apply list_elem_of_singleton in Hin. discriminate.
Qed.

Lemma reply_runs_only_prepared_commands_witness :
  exists tmp cmds, mktemp_directory (ext_three_replies true) = Some tmp /\
    prepare_reply_patchset_with_reviewed_by (ext_three_replies true) tmp "all" (patches details_reply_pending)
      "Dev <dev@example.org>" = inr cmds /\
    cmds !! Z.to_nat 1 = Some "reply 1"%string.
Proof.
  pose proof (reply_runs_only_prepared_commands (ext_three_replies true) details_reply_pending "all"
                _ _ eq_refl) as H.
  cbv beta iota zeta delta [get_git_signature ext_three_replies] in H.
  destruct H as [_ H]. destruct (H 1 "reply 1"%string) as (_ & _ & _ & Hc).
  - vm_compute. right. right. right. left.
  - exact Hc.
Defined.

(** ** The preview of the details screen *)

Lemma wrap32_le (z : Z) : 0 <= z -> 0 <= wrap32 z <= z.
Proof.
  intros Hz. unfold wrap32. split; [apply Z.mod_pos_bound; lia|apply Z.mod_le; lia].
Qed.

Lemma details_op_preview lines_count op d :
  (forall t, 0 <= lines_count t) -> preview_ok lines_count d -> actions_complete d ->
  exists d', details_op lines_count op d = Ok d' /\ preview_ok lines_count d' /\
             patches d' = patches d /\ representative_patch d' = representative_patch d.
Proof.
  intros Hlc [Hi [Hlen [text [Ht Hoff]]]] [HB HR].
  pose proof (lookup_lt_Some _ _ _ Ht) as Hlt.
  destruct op; cbn.
  - unfold Details.preview_next_patch. destruct (decide _) as [Hn|Hn].
    + eexists; split; [reflexivity|]. cbn. rewrite wrap32_small by lia.
      split; [|split; reflexivity].
      destruct (lookup_lt_is_Some_2 (patches d) (Z.to_nat (preview_index d + 1))) as [t' Ht']; [lia|].
      unfold preview_ok; cbn [Details.with_preview preview_index preview_scroll_offset patches].
      split; [lia|]. split; [exact Hlen|]. exists t'. split; [exact Ht'|]. split; [lia|apply Hlc].
    + eexists; split; [reflexivity|]. split; [|split; reflexivity].
      split; [exact Hi|]. split; [exact Hlen|]. exists text. split; [exact Ht|exact Hoff].
  - unfold Details.preview_previous_patch. destruct (decide _) as [Hn|Hn].
    + eexists; split; [reflexivity|]. split; [|split; reflexivity]. cbn.
      destruct (lookup_lt_is_Some_2 (patches d) (Z.to_nat (preview_index d - 1))) as [t' Ht']; [lia|].
      unfold preview_ok; cbn [Details.with_preview preview_index preview_scroll_offset patches].
      split; [lia|]. split; [exact Hlen|]. exists t'. split; [exact Ht'|]. split; [lia|apply Hlc].
    + eexists; split; [reflexivity|]. split; [|split; reflexivity].
      split; [exact Hi|]. split; [exact Hlen|]. exists text. split; [exact Ht|exact Hoff].
  - unfold Details.preview_scroll_down. rewrite Ht. destruct (decide _) as [Hn|Hn].
    + eexists; split; [reflexivity|]. split; [|split; reflexivity]. cbn.
      pose proof (wrap32_le (preview_scroll_offset d + 1) ltac:(lia)).
      unfold preview_ok; cbn [Details.with_preview preview_index preview_scroll_offset patches].
      split; [lia|]. split; [exact Hlen|]. exists text. split; [exact Ht|]. lia.
    + eexists; split; [reflexivity|]. split; [|split; reflexivity].
      split; [exact Hi|]. split; [exact Hlen|]. exists text. split; [exact Ht|exact Hoff].
  - unfold Details.preview_scroll_up. destruct (decide _) as [Hn|Hn].
    + eexists; split; [reflexivity|]. split; [|split; reflexivity]. cbn.
      unfold preview_ok; cbn [Details.with_preview preview_index preview_scroll_offset patches].
      split; [lia|]. split; [exact Hlen|]. exists text. split; [exact Ht|]. lia.
    + eexists; split; [reflexivity|]. split; [|split; reflexivity].
      split; [exact Hi|]. split; [exact Hlen|]. exists text. split; [exact Ht|exact Hoff].
  - unfold Details.toggle_bookmark_action, Details.toggle_action. destruct HB as [b Hb]. rewrite Hb.
    eexists; split; [reflexivity|]. split; [|split; reflexivity].
      split; [exact Hi|]. split; [exact Hlen|]. exists text. split; [exact Ht|exact Hoff].
  - unfold Details.toggle_reply_with_reviewed_by_action, Details.toggle_action.
    destruct HR as [b Hb]. rewrite Hb.
    eexists; split; [reflexivity|]. split; [|split; reflexivity].
      split; [exact Hi|]. split; [exact Hlen|]. exists text. split; [exact Ht|exact Hoff].
Qed.

(** X18. On the details screen, a series whose patch list is not empty can be
    browsed with any sequence of preview moves and action toggles without
    a panic: the previewed patch always exists, the scroll offset stays
    within its line count, both action flags stay present, and the series
    and its patches are not changed. A series that was split into no
    patches panics on the first scroll down. *)
Theorem details_preview_stays_valid (lines_count : string -> Z) (ops : list DetailsOp)
  (p : Patch) (ps : list string) (b : bool) (screen : CurrentScreen) :
  (forall t, 0 <= lines_count t) -> Z.of_nat (length ps) <= 2 ^ 32 ->
  let d := mkDetails p ps 0 0 (initial_patchset_actions b) screen in
  (ps <> [] ->
   exists d', details_run lines_count ops d = Ok d' /\ preview_ok lines_count d' /\
              actions_complete d' /\ patches d' = ps /\ representative_patch d' = p) /\
  (ps = [] -> details_run lines_count (OpScrollDown :: ops) d = Panic).
Proof.
  intros Hlc Hlen d. split.
  - intros Hne.
    assert (Hok : preview_ok lines_count d).
    { destruct ps as [|t ps']; [done|]. split; [cbn; lia|]. split; [exact Hlen|].
      exists t. split; [reflexivity|]. cbn. split; [lia|apply Hlc]. }
    assert (Hc : actions_complete d) by (apply (actions_complete_initial b); reflexivity).
    assert (Hp : patches d = ps /\ representative_patch d = p) by (split; reflexivity).
    clearbody d. revert d Hok Hc Hp. induction ops as [|op ops IH]; intros d Hok Hc [Hp Hr].
    + exists d. auto.
    + cbn. destruct (details_op_preview lines_count op d Hlc Hok Hc) as (d1 & Hop & Hok1 & Hp1 & Hr1).
      rewrite Hop. apply IH; [exact Hok1| |].
      * exact (details_op_complete lines_count op d d1 Hc Hop).
      * split; congruence.
  - intros ->. reflexivity.
Qed.

Lemma details_preview_stays_valid_witness :
  exists d', details_run (fun t => Z.of_nat (String.length t)) [OpScrollDown; OpPreviewNext; OpToggleBookmark; OpScrollUp]
               (mkDetails (mkPatch "t" "m") ["ab"; "c"]%string 0 0 (initial_patchset_actions false)
                  LatestPatchsets) = Ok d' /\
             preview_ok (fun t => Z.of_nat (String.length t)) d'.
Proof.
  destruct (details_preview_stays_valid (fun t => Z.of_nat (String.length t))
              [OpScrollDown; OpPreviewNext; OpToggleBookmark; OpScrollUp]
              (mkPatch "t" "m") ["ab"; "c"]%string false LatestPatchsets ltac:(intros; cbv beta; lia) ltac:(cbn; lia))
    as [H _].
  destruct (H ltac:(discriminate)) as (d' & Hrun & Hok & _). eauto.
Defined.

(** ** The cursor of the latest patchsets and its current page *)

Lemma latest_move_page_start m s s' :
  latest_inv s -> page_start s <= lps_patchset_index s -> latest_move m s = Ok s' ->
  page_start s' <= lps_patchset_index s' /\ lps_ids s' = lps_ids s.
Proof.
  unfold latest_inv, page_start. intros (Hidx & Hlen & Hpn & Hpage) Hps Hm.
  destruct m; cbn in Hm.
  - injection Hm as <-. unfold Latest.select_below_patchset.
    rewrite (wrap32_small (lps_patchset_index s + 1)) by lia.
    rewrite (wrap32_small (Z.of_nat (length (lps_ids s)))) by lia.
    destruct (decide _); cbn; split; auto; lia.
  - injection Hm as <-. unfold Latest.select_above_patchset.
    destruct (decide _); [auto|]. destruct (decide _) as [Hge|]; cbn; [|auto].
    split; [|reflexivity].
    destruct Hpage as [Hz | (Hps1 & Hpn1 & Hstart & Hfit)].
    + rewrite Hz in *. lia.
    + rewrite (wrap32_small (lps_page_number s - 1)) in Hge by lia.
      rewrite wrap32_small in Hge by nia. lia.
  - unfold Latest.increment_page, usize_try_into_u32 in Hm.
    rewrite decide_True in Hm by lia.
    destruct Hpage as [Hz | (Hps1 & Hpn1 & Hstart & Hfit)].
    + rewrite Hz, Z.mul_0_l, (wrap32_small 0) in Hm by lia.
      rewrite decide_False in Hm by lia.
      injection Hm as <-. cbn. rewrite Hz, !Z.mul_0_l, (wrap32_small 0) by lia. split; [lia|reflexivity].
    + rewrite (wrap32_small (lps_page_size s * lps_page_number s)) in Hm by nia.
      destruct (decide _) as [Hgt|Hle].
      * injection Hm as <-. auto.
      * injection Hm as <-. cbn. split; [|reflexivity].
        assert (lps_page_number s <= Z.of_nat (length (lps_ids s))) by nia.
        rewrite (wrap32_small (lps_page_number s + 1)) by lia.
        replace (lps_page_number s + 1 - 1) with (lps_page_number s) by lia.
        rewrite (wrap32_small (lps_page_number s)) by lia.
        rewrite wrap32_small by nia. lia.
  - injection Hm as <-. unfold Latest.decrement_page.
    destruct (decide _) as [H1|H1]; [auto|]. cbn. split; [|reflexivity].
    destruct Hpage as [Hz | (Hps1 & Hpn1 & Hstart & Hfit)].
    + rewrite Hz, !Z.mul_0_l. apply wrap32_range.
    + rewrite (wrap32_small (lps_page_number s - 1)) by lia.
      rewrite (wrap32_small (lps_page_number s - 1 - 1)) by lia.
      rewrite wrap32_small by nia. lia.
Qed.

(** X19. Along any sequence of cursor and page moves on the latest patchsets,
    the cursor never goes above the first patchset of the current page:
    [select_above_patchset] stops there, and a page change puts the cursor
    on the first patchset of the new page. The moves do not change the
    fetched sequence. *)
Theorem latest_cursor_not_above_page (ms : list LatestMove) (s s' : LatestPatchsetsState) :
  latest_inv s -> page_start s <= lps_patchset_index s ->
  latest_run ms s = Ok s' ->
  latest_inv s' /\ page_start s' <= lps_patchset_index s' /\ lps_ids s' = lps_ids s.
Proof.
  revert s. induction ms as [|m ms IH]; intros s Hs Hp Hrun; cbn in Hrun.
  - injection Hrun as <-. auto.
  - destruct (latest_move m s) as [s1| |] eqn:Hm; try discriminate.
    destruct (latest_move_page_start m s s1 Hs Hp Hm) as [Hp1 Hids1].
    destruct (IH s1 (latest_move_inv m s s1 Hs Hm) Hp1 Hrun) as (Hi & Hp' & Hids).
    split; [exact Hi|]. split; [exact Hp'|]. congruence.
Qed.

Lemma latest_cursor_not_above_page_witness :
  let s := mkLatest (map (fun _ => "m"%string) (seq 0 25)) ∅ "all" 2 15 10 in
  exists s', latest_run (repeat LSelectAbove 8) s = Ok s' /\ page_start s' <= lps_patchset_index s'.
Proof.
  intros s.
  destruct (latest_run (repeat LSelectAbove 8) s) as [s'| |] eqn:Hrun;
    [|vm_compute in Hrun; discriminate|vm_compute in Hrun; discriminate].
  destruct (latest_cursor_not_above_page (repeat LSelectAbove 8) s s'
              ltac:(unfold latest_inv; cbn; lia) ltac:(unfold page_start; cbn; lia) Hrun)
    as (_ & Hp & _).
  exists s'. split; [reflexivity|exact Hp].
Defined.

(** X20. [fetch_current_page] asks the session for [page_size * page_number]
    representative patches and keeps what the session processed even when
    the request fails; only an unknown error or a non-OK status is an
    error, the end of the feed is not. It leaves the page, the cursor and
    the page size as they were, and when the session only appends to the
    fetched sequence (within the u32 range), the state stays valid and the
    cursor stays on the current page. *)
Theorem fetch_current_page_keeps_cursor process (s : LatestPatchsetsState) ids processed r s' res :
  process (lps_ids s) (lps_processed s) (wrap32 (lps_page_size s * lps_page_number s))
    = ((ids, processed), r) ->
  Latest.fetch_current_page process s = (s', res) ->
  lps_ids s' = ids /\ lps_processed s' = processed /\
  lps_page_number s' = lps_page_number s /\ lps_patchset_index s' = lps_patchset_index s /\
  lps_page_size s' = lps_page_size s /\ lps_target_list s' = lps_target_list s /\
  (res = Ok tt <-> r = None \/ r = Some EndOfFeed) /\
  (latest_inv s -> page_start s <= lps_patchset_index s ->
   (length (lps_ids s) <= length ids)%nat ->
   Z.of_nat (length ids) + lps_page_size s + 1 < 2 ^ 32 ->
   latest_inv s' /\ page_start s' <= lps_patchset_index s').
Proof.
  intros Hp Hf. unfold Latest.fetch_current_page in Hf. rewrite Hp in Hf.
  assert (Hs' : s' = mkLatest ids processed (lps_target_list s) (lps_page_number s)
                       (lps_patchset_index s) (lps_page_size s))
    by (destruct r as [[]|]; congruence).
  subst s'. cbn. do 6 (split; [reflexivity|]). split.
  - destruct r as [[]|]; injection Hf as <-; split; intros H;
      try discriminate; try reflexivity; intuition congruence.
  - unfold latest_inv, page_start. cbn. intros (Hidx & Hlen & Hpn & Hpage) Hps Hle Hfit.
    split; [|exact Hps]. split; [lia|]. split; [lia|]. split; [exact Hpn|].
    destruct Hpage as [Hz|(Hps1 & Hpn1 & Hstart & _)]; [left; exact Hz|right]. lia.
Qed.

Lemma fetch_current_page_keeps_cursor_witness :
  let s := mkLatest ["m0"]%string ∅ "all" 1 0 2 in
  let process := fun (ids : list string) (m : gmap string Patch) (_ : Z) =>
                   ((ids ++ ["m1"]%string, m), Some EndOfFeed) in
  (Latest.fetch_current_page process s).2 = Ok tt /\ latest_inv (Latest.fetch_current_page process s).1.
Proof.
  intros s process.
  destruct (fetch_current_page_keeps_cursor process s ["m0"; "m1"]%string ∅ (Some EndOfFeed)
              (Latest.fetch_current_page process s).1 (Latest.fetch_current_page process s).2
              eq_refl eq_refl) as (_ & _ & _ & _ & _ & _ & Hres & Hinv).
  split.
  - apply Hres. right. reflexivity.
  - apply Hinv; [unfold latest_inv; cbn; lia|unfold page_start; cbn; lia|cbn; lia|cbn; lia].
Defined.

(** ** Building the configuration *)

Lemma override_none ce c :
  env_var ce "PATCH_HUB_PAGE_SIZE" = None -> env_var ce "PATCH_HUB_CACHE_DIR" = None ->
  env_var ce "PATCH_HUB_DATA_DIR" = None -> env_var ce "PATCH_HUB_GIT_SEND_EMAIL_OPTIONS" = None ->
  Cfg.override_with_env_vars ce c = Ok c.
Proof. intros H1 H2 H3 H4. unfold Cfg.override_with_env_vars. rewrite H1, H2, H3, H4. reflexivity. Qed.

Lemma build_unfold ce home :
  env_var ce "HOME" = Some home ->
  Cfg.build ce =
  Cfg.override_with_env_vars ce
    (match (config_path ← env_var ce "PATCH_HUB_CONFIG_PATH"; Cfg.try_config_file ce config_path) with
     | Some c => c
     | None => from_option id (Cfg.default_from_home home)
                 (Cfg.try_config_file ce (home +:+ "/.local/share/patch_hub/config.json")%string)
     end).
Proof.
  intros Hh. unfold Cfg.build, Cfg.default, Cfg.detect_patch_hub_config_file. rewrite Hh.
  destruct (config_path ← _; _); [reflexivity|].
  destruct (Cfg.try_config_file _ _); reflexivity.
Qed.

(** X21. [Config::build] without overrides from the environment: [$HOME] must
    be set, even when [PATCH_HUB_CONFIG_PATH] names a valid config file; a
    file that parses at [PATCH_HUB_CONFIG_PATH] is the configuration;
    otherwise the file at the default location is, and when that one is
    missing or does not parse, the defaults derived from [$HOME]. *)
Theorem build_config_file_precedence (ce : ConfigEnv) :
  env_var ce "PATCH_HUB_PAGE_SIZE" = None -> env_var ce "PATCH_HUB_CACHE_DIR" = None ->
  env_var ce "PATCH_HUB_DATA_DIR" = None -> env_var ce "PATCH_HUB_GIT_SEND_EMAIL_OPTIONS" = None ->
  (env_var ce "HOME" = None -> Cfg.build ce = Panic) /\
  (forall home, env_var ce "HOME" = Some home ->
     (forall p c, env_var ce "PATCH_HUB_CONFIG_PATH" = Some p -> Cfg.try_config_file ce p = Some c ->
        Cfg.build ce = Ok c) /\
     ((forall p, env_var ce "PATCH_HUB_CONFIG_PATH" = Some p -> Cfg.try_config_file ce p = None) ->
        Cfg.build ce = Ok (from_option id (Cfg.default_from_home home)
                             (Cfg.try_config_file ce (home +:+ "/.local/share/patch_hub/config.json")%string)))).
Proof.
  intros H1 H2 H3 H4. split.
  - intros Hh. unfold Cfg.build, Cfg.default. rewrite Hh. reflexivity.
  - intros home Hh. rewrite (build_unfold ce home Hh), override_none by assumption. split.
    + intros p c Hp Hc. rewrite Hp. cbn. rewrite Hc. reflexivity.
    + intros Hnone. destruct (env_var ce "PATCH_HUB_CONFIG_PATH") as [p|] eqn:Hp; cbn.
      * rewrite (Hnone p eq_refl). reflexivity.
      * reflexivity.
Qed.

Lemma build_config_file_precedence_witness :
  let ce := mkConfigEnv (env_of [("PATCH_HUB_CONFIG_PATH", "/etc/ph.json")]%string)
              (fun _ => true) (fun _ => Some "{}"%string) (fun _ => Some (Cfg.default_from_home "/x")) in
  Cfg.build ce = Panic.
Proof.
  intros ce. destruct (build_config_file_precedence ce eq_refl eq_refl eq_refl eq_refl) as [H _].
  apply H. reflexivity.
Defined.

Lemma override_props ce c0 c :
  Cfg.override_with_env_vars ce c0 = Ok c ->
  (forall s, env_var ce "PATCH_HUB_PAGE_SIZE" = Some s -> Cfg.parse_usize s = Some (page_size c)) /\
  (forall cd, env_var ce "PATCH_HUB_CACHE_DIR" = Some cd ->
     cache_dir c = cd /\ patchsets_cache_dir c = (cd +:+ "/patchsets")%string) /\
  (forall dd, env_var ce "PATCH_HUB_DATA_DIR" = Some dd ->
     data_dir c = dd /\
     bookmarked_patchsets_path c = (dd +:+ "/bookmarked_patchsets.json")%string /\
     mailing_lists_path c = (dd +:+ "/mailing_lists.json")%string /\
     reviewed_patchsets_path c = (dd +:+ "/reviewed_patchsets.json")%string /\
     logs_path c = (dd +:+ "/logs")%string) /\
  (forall o, env_var ce "PATCH_HUB_GIT_SEND_EMAIL_OPTIONS" = Some o -> git_send_email_options c = o).
Proof.
  unfold Cfg.override_with_env_vars. intros H.
  destruct (env_var ce "PATCH_HUB_PAGE_SIZE") as [s|];
    [destruct (Cfg.parse_usize s) as [n|] eqn:Hn; [|discriminate]|];
    destruct (env_var ce "PATCH_HUB_CACHE_DIR") as [cd|];
    destruct (env_var ce "PATCH_HUB_DATA_DIR") as [dd|];
    destruct (env_var ce "PATCH_HUB_GIT_SEND_EMAIL_OPTIONS") as [o|];
    injection H as <-;
    (split; [|split; [|split]]); intros v Hv;
    (discriminate || (injection Hv as <-; cbn; rewrite ?Hn; repeat split)).
Qed.

(** X22. The environment overrides win over the configuration file and the
    defaults: a built configuration has the page size parsed from
    [PATCH_HUB_PAGE_SIZE], the cache directory of [PATCH_HUB_CACHE_DIR]
    with the patchsets cache below it, the data directory of
    [PATCH_HUB_DATA_DIR] with the four data files below it, and the git
    options of [PATCH_HUB_GIT_SEND_EMAIL_OPTIONS]; a page size that is not
    a [usize] makes the build panic. *)
Theorem build_env_overrides_win (ce : ConfigEnv) :
  (forall c, Cfg.build ce = Ok c ->
     (forall s, env_var ce "PATCH_HUB_PAGE_SIZE" = Some s -> Cfg.parse_usize s = Some (page_size c)) /\
     (forall cd, env_var ce "PATCH_HUB_CACHE_DIR" = Some cd ->
        cache_dir c = cd /\ patchsets_cache_dir c = (cd +:+ "/patchsets")%string) /\
     (forall dd, env_var ce "PATCH_HUB_DATA_DIR" = Some dd ->
        data_dir c = dd /\
        bookmarked_patchsets_path c = (dd +:+ "/bookmarked_patchsets.json")%string /\
        mailing_lists_path c = (dd +:+ "/mailing_lists.json")%string /\
        reviewed_patchsets_path c = (dd +:+ "/reviewed_patchsets.json")%string /\
        logs_path c = (dd +:+ "/logs")%string) /\
     (forall o, env_var ce "PATCH_HUB_GIT_SEND_EMAIL_OPTIONS" = Some o -> git_send_email_options c = o)) /\
  (forall home s, env_var ce "HOME" = Some home -> env_var ce "PATCH_HUB_PAGE_SIZE" = Some s ->
     Cfg.parse_usize s = None -> Cfg.build ce = Panic).
Proof.
  split.
  - intros c Hb. destruct (env_var ce "HOME") as [home|] eqn:Hh;
      [|unfold Cfg.build, Cfg.default in Hb; rewrite Hh in Hb; discriminate].
    rewrite (build_unfold ce home Hh) in Hb. exact (override_props ce _ c Hb).
  - intros home s Hh Hs Hn. rewrite (build_unfold ce home Hh).
    unfold Cfg.override_with_env_vars. rewrite Hs, Hn. reflexivity.
Qed.

Lemma build_env_overrides_win_witness :
  let ce := mkConfigEnv (env_of [("HOME", "/home/dev"); ("PATCH_HUB_PAGE_SIZE", "ten")]%string)
              (fun _ => false) (fun _ => None) (fun _ => None) in
  Cfg.build ce = Panic.
Proof.
  intros ce. destruct (build_env_overrides_win ce) as [_ H].
  apply (H "/home/dev"%string "ten"%string); reflexivity.
Defined.

(** ** Saving, then building again *)

Lemma save_ops_final fs path chunks :
  Cfg.run_ops fs (Cfg.save_ops path chunks) !! path = Some (foldl String.append "" chunks).
Proof.
  unfold Cfg.save_ops. set (tmp := (path +:+ ".tmp")%string).
  rewrite app_comm_cons, run_ops_app.
  assert (Htmp : Cfg.run_ops fs (Cfg.FsCreate tmp :: map (Cfg.FsWrite tmp) chunks) !! tmp
                 = Some (foldl String.append "" chunks)).
  { change (Cfg.FsCreate tmp :: map (Cfg.FsWrite tmp) chunks)
      with ([Cfg.FsCreate tmp] ++ map (Cfg.FsWrite tmp) chunks).
    rewrite run_ops_app. apply run_writes. apply lookup_insert_eq. }
  set (r := Cfg.run_ops fs _) in Htmp |- *.
  unfold Cfg.run_ops. cbn [foldl Cfg.apply_op]. rewrite Htmp. apply lookup_insert_eq.
Qed.

Lemma try_config_file_over_fs ce fs p content :
  fs !! p = Some content ->
  Cfg.try_config_file (env_over_fs ce fs) p = serde_from_str ce content.
Proof.
  intros H. unfold Cfg.try_config_file, env_over_fs. cbn.
  rewrite bool_decide_eq_true_2 by (rewrite H; eauto). rewrite H. reflexivity.
Qed.

(** X23. A saved configuration is the one the next build reads, when nothing in
    the environment overrides it and the serializer's output parses back
    to the configuration: the save writes where the build looks first. *)
Theorem save_then_build_round_trip (ce : ConfigEnv) (to_writer_pretty : Config -> list string)
  (c : Config) (fs : gmap string string) (ops : list Cfg.FsOp) (home : string) :
  env_var ce "HOME" = Some home ->
  env_var ce "PATCH_HUB_PAGE_SIZE" = None -> env_var ce "PATCH_HUB_CACHE_DIR" = None ->
  env_var ce "PATCH_HUB_DATA_DIR" = None -> env_var ce "PATCH_HUB_GIT_SEND_EMAIL_OPTIONS" = None ->
  serde_from_str ce (foldl String.append "" (to_writer_pretty c)) = Some c ->
  Cfg.save_patch_hub_config ce to_writer_pretty c = Ok ops ->
  Cfg.build (env_over_fs ce (Cfg.run_ops fs ops)) = Ok c.
Proof.
  intros Hh H1 H2 H3 H4 Hserde Hsave.
  unfold Cfg.save_patch_hub_config, Cfg.save_path in Hsave.
  rewrite (build_unfold (env_over_fs ce (Cfg.run_ops fs ops)) home Hh).
  rewrite override_none by assumption. cbn [env_var env_over_fs].
  destruct (env_var ce "PATCH_HUB_CONFIG_PATH") as [p|] eqn:Hp.
  - injection Hsave as <-. cbv beta iota delta [mbind option_bind].
    rewrite (try_config_file_over_fs ce _ p _ (save_ops_final fs p _)), Hserde. reflexivity.
  - rewrite Hh in Hsave. injection Hsave as <-. cbv beta iota delta [mbind option_bind from_option].
    rewrite (try_config_file_over_fs ce _ _ _ (save_ops_final fs _ _)), Hserde. reflexivity.
Qed.

Lemma save_then_build_round_trip_witness :
  let c := Cfg.set_page_size (Cfg.default_from_home "/home/dev") 50 in
  let ce := mkConfigEnv (env_of [("HOME", "/home/dev")]%string) (fun _ => false) (fun _ => None)
              (fun s => if decide (s = "{50}"%string) then Some c else None) in
  exists ops, Cfg.save_patch_hub_config ce (fun _ => ["{"; "50"; "}"]%string) c = Ok ops /\
              Cfg.build (env_over_fs ce (Cfg.run_ops ∅ ops)) = Ok c.
Proof.
  intros c ce. eexists. split; [reflexivity|].
  apply (save_then_build_round_trip ce (fun _ => ["{"; "50"; "}"]%string) c ∅ _ "/home/dev"%string);
    reflexivity.
Defined.

(** ** Creating the directories of the configuration *)

Section CreateDirs.

Variable create_dir_all : gmap string FsEntry -> string -> option (gmap string FsEntry).

(** [create_dir_all] makes the path a directory, keeps every existing entry,
    and adds nothing but directories. *)
Hypothesis create_dir_all_spec : forall fs p fs',
  create_dir_all fs p = Some fs' ->
  fs' !! p = Some FsDir /\
  (forall q e, fs !! q = Some e -> fs' !! q = Some e) /\
  (forall q e, fs' !! q = Some e -> fs !! q = Some e \/ e = FsDir).

Lemma create_each_spec paths fs tr r :
  Cfg.create_each create_dir_all paths fs = (tr, r) ->
  (forall e, r <> Err e) /\
  (forall p, p ∈ tr -> p ∈ paths /\ fs !! p = None) /\
  (forall fs', r = Ok fs' ->
     (forall q e, fs !! q = Some e -> fs' !! q = Some e) /\
     (forall q e, fs' !! q = Some e -> fs !! q = Some e \/ e = FsDir) /\
     (forall p, p ∈ paths -> is_Some (fs' !! p))).
Proof.
  revert fs tr r. induction paths as [|p ps IH]; intros fs tr r Hrun; cbn in Hrun.
  - injection Hrun as <- <-. split; [discriminate|]. split.
    + intros q Hq. apply elem_of_nil in Hq. done.
    + intros fs' [= <-]. split; [auto|]. split; [auto|].
      intros q Hq. apply elem_of_nil in Hq. done.
  - destruct (decide (is_Some (fs !! p))) as [Hin|Hnin].
    + destruct (IH fs tr r Hrun) as (Hne & Htr & Hok). split; [exact Hne|]. split.
      * intros q Hq. destruct (Htr q Hq) as [Hq1 Hq2]. split; [apply elem_of_cons; auto|exact Hq2].
      * intros fs' Hr. destruct (Hok fs' Hr) as (Hkeep & Hnew & Hall).
        split; [exact Hkeep|]. split; [exact Hnew|].
        intros q Hq. apply elem_of_cons in Hq as [->|Hq]; [|auto].
        destruct Hin as [e He]. eexists. apply Hkeep. exact He.
    + apply eq_None_not_Some in Hnin.
      destruct (create_dir_all fs p) as [fs1|] eqn:Hc.
      * destruct (create_dir_all_spec _ _ _ Hc) as (Hp1 & Hkeep1 & Hnew1).
        destruct (Cfg.create_each create_dir_all ps fs1) as [tr' r'] eqn:Hr'.
        injection Hrun as <- <-. destruct (IH fs1 tr' r' Hr') as (Hne & Htr & Hok).
        split; [exact Hne|]. split.
        -- intros q Hq. apply elem_of_cons in Hq as [->|Hq]; [split; [apply elem_of_cons; auto|exact Hnin]|].
           destruct (Htr q Hq) as [Hq1 Hq2]. split; [apply elem_of_cons; auto|].
           destruct (fs !! q) as [e|] eqn:He; [|reflexivity].
           rewrite (Hkeep1 _ _ He) in Hq2. discriminate.
        -- intros fs' Hr. destruct (Hok fs' Hr) as (Hkeep & Hnew & Hall).
           split; [auto|]. split.
           ++ intros q e Hq. destruct (Hnew q e Hq) as [Hq1| ->]; [|auto]. apply Hnew1. exact Hq1.
           ++ intros q Hq. apply elem_of_cons in Hq as [->|Hq]; [|auto].
              eexists. apply Hkeep. exact Hp1.
      * injection Hrun as <- <-. split; [discriminate|]. split; [|discriminate].
        intros q Hq. apply list_elem_of_singleton in Hq as ->. split; [apply elem_of_cons; auto|exact Hnin].
Qed.

End CreateDirs.

Lemma mkdir_p_spec : forall fs p fs', mkdir_p fs p = Some fs' ->
  fs' !! p = Some FsDir /\
  (forall q e, fs !! q = Some e -> fs' !! q = Some e) /\
  (forall q e, fs' !! q = Some e -> fs !! q = Some e \/ e = FsDir).
Proof.
  intros fs p fs' Hm. unfold mkdir_p in Hm.
  assert (Hfs' : fs' = <[p := FsDir]> fs /\ fs !! p <> Some FsFile).
  { destruct (fs !! p) as [[]|]; injection Hm as <- || discriminate Hm; split; congruence. }
  destruct Hfs' as [-> Hnf]. split; [apply lookup_insert_eq|]. split.
  - intros q e Hq. destruct (decide (q = p)) as [->|Hqp].
    + rewrite lookup_insert_eq. destruct e; [reflexivity|congruence].
    + rewrite lookup_insert_ne by congruence. exact Hq.
  - intros q e Hq. destruct (decide (q = p)) as [->|Hqp].
    + rewrite lookup_insert_eq in Hq. injection Hq as <-. right; reflexivity.
    + rewrite lookup_insert_ne in Hq by congruence. left; exact Hq.
Qed.

(** X24. [create_dirs] never returns an error (a failure of [create_dir_all]
    panics): it only asks [create_dir_all] for those of the cache, data,
    patchsets cache and logs paths of the configuration at which nothing
    exists yet. When it returns, every entry that existed before is still
    there unchanged; each of the four paths that was not a regular file is a
    directory, while one that was a regular file is left a regular file. *)
Theorem create_dirs_creates_missing
  (create_dir_all : gmap string FsEntry -> string -> option (gmap string FsEntry))
  (c : Config) (fs : gmap string FsEntry) tr r :
  (forall fs p fs', create_dir_all fs p = Some fs' ->
     fs' !! p = Some FsDir /\
     (forall q e, fs !! q = Some e -> fs' !! q = Some e) /\
     (forall q e, fs' !! q = Some e -> fs !! q = Some e \/ e = FsDir)) ->
  Cfg.create_dirs create_dir_all c fs = (tr, r) ->
  (forall e, r <> Err e) /\
  (forall p, p ∈ tr -> fs !! p = None /\ p ∈ [cache_dir c; data_dir c; patchsets_cache_dir c; logs_path c]) /\
  (forall fs', r = Ok fs' ->
     (forall q e, fs !! q = Some e -> fs' !! q = Some e) /\
     (forall p, p ∈ [cache_dir c; data_dir c; patchsets_cache_dir c; logs_path c] ->
        (fs !! p = Some FsFile -> fs' !! p = Some FsFile) /\
        (fs !! p <> Some FsFile -> fs' !! p = Some FsDir))).
Proof.
  intros Hspec Hrun. unfold Cfg.create_dirs in Hrun.
  destruct (create_each_spec create_dir_all Hspec _ _ _ _ Hrun) as (Hne & Htr & Hok).
  split; [exact Hne|]. split.
  - intros p Hp. destruct (Htr p Hp). auto.
  - intros fs' Hr. destruct (Hok fs' Hr) as (Hkeep & Hnew & Hall).
    split; [exact Hkeep|]. intros p Hp. split; [apply Hkeep|].
    intros Hnf. destruct (Hall p Hp) as [e He].
    destruct (Hnew p e He) as [Hold| ->]; [|exact He].
    destruct e; [exact He|congruence].
Qed.

Lemma create_dirs_creates_missing_witness :
  let c := Cfg.default_from_home "/home/dev" in
  let fs0 : gmap string FsEntry := <[logs_path c := FsFile]> {[cache_dir c := FsDir]} in
  exists fs', Cfg.create_dirs mkdir_p c fs0
              = ([data_dir c; patchsets_cache_dir c], Ok fs') /\
              fs' !! patchsets_cache_dir c = Some FsDir /\ fs' !! logs_path c = Some FsFile.
Proof.
  intros c fs0. eexists. split; [reflexivity|].
  destruct (create_dirs_creates_missing mkdir_p c fs0 _ _ mkdir_p_spec eq_refl) as (_ & _ & Hok).
  destruct (Hok _ eq_refl) as [_ Hall]. split.
  - apply (Hall (patchsets_cache_dir c)); [set_solver|]. vm_compute. discriminate.
  - apply (Hall (logs_path c)); [set_solver|]. reflexivity.
Defined.
